(** * TokenBalanceTracker: block-range scheduling, ledger aggregation,
      ranking and last-activity resolution (src/main.py) *)

From Stdlib Require Import ZArith List Bool Lia.
From Stdlib Require Import Strings.String Strings.Ascii Strings.Byte.
From Stdlib Require Import Permutation Sorted.
From Equations Require Import Equations.
Import ListNotations.

Open Scope Z_scope.

(** ** Python values used by the tracker *)

Module Py.

(** The exceptions the modelled code can raise or receive.  [BackendError]
    stands for whatever the web3 provider raises on a failed RPC call. *)
Inductive Exception : Type :=
| IndexError
| ValueError
| BackendError (code : Z).

(** The outcome of evaluating a Python expression: a value or a raised
    exception. *)
Inductive outcome (A : Type) : Type :=
| Returns (a : A)
| Raises (e : Exception).
Arguments Returns {A} a.
Arguments Raises {A} e.

Definition obind {A B} (m : outcome A) (k : A -> outcome B) : outcome B :=
  match m with
  | Returns a => k a
  | Raises e => Raises e
  end.

Notation "x <~ m ;; k" := (obind m (fun x => k))
  (at level 61, m at next level, right associativity).

(** *** [bytes] and [str] *)

Definition bytes : Type := list byte.

(** One lowercase hexadecimal digit. *)
Definition hex_digit (n : N) : ascii :=
  match n with
  | 0 => "0" | 1 => "1" | 2 => "2" | 3 => "3" | 4 => "4" | 5 => "5"
  | 6 => "6" | 7 => "7" | 8 => "8" | 9 => "9" | 10 => "a" | 11 => "b"
  | 12 => "c" | 13 => "d" | 14 => "e" | _ => "f"
  end%N%char.

Definition byte_hex (b : byte) (rest : string) : string :=
  let n := Byte.to_N b in
  String (hex_digit (n / 16)) (String (hex_digit (n mod 16)) rest).

(** [HexBytes.hex()] as the code relies on it: the prefix ['0x'] followed
    by two lowercase digits per byte (a 32-byte topic gives 66 characters,
    so that [[26:]] keeps the 40 digits of the address). *)
Definition hex (bs : bytes) : string :=
  String "0" (String "x" (fold_right byte_hex EmptyString bs)).

(** The slice [s[n:]] for [n >= 0]; a string shorter than [n] gives ['']. *)
Fixpoint drop (n : nat) (s : string) : string :=
  match n, s with
  | O, _ => s
  | S n', EmptyString => EmptyString
  | S n', String _ s' => drop n' s'
  end.

(** The value of a hexadecimal digit, from its character code:
    ['0'..'9'] are 48..57, ['a'..'f'] 97..102 and ['A'..'F'] 65..70. *)
Definition digit_value (c : ascii) : option Z :=
  let code := N_of_ascii c in
  (if (48 <=? code) && (code <=? 57) then Some (Z.of_N (code - 48))
   else if (97 <=? code) && (code <=? 102) then Some (Z.of_N (code - 87))
   else if (65 <=? code) && (code <=? 70) then Some (Z.of_N (code - 55))
   else None)%N.

Fixpoint parse_digits (s : string) (acc : Z) : option Z :=
  match s with
  | EmptyString => Some acc
  | String c s' =>
      match digit_value c with
      | Some d => parse_digits s' (16 * acc + d)
      | None => None
      end
  end.

(** [int(s, 16)] on the strings [hex] produces: an optional ['0x'] prefix
    and at least one hexadecimal digit, anything else is a [ValueError].
    (Signs, surrounding blanks and digit-group underscores, which [int] also
    accepts, never occur in the output of [hex] and are not modelled.) *)
Definition int16 (s : string) : outcome Z :=
  let digits :=
    match s with
    | String "0" (String "x" r) => r
    | String "0" (String "X" r) => r
    | _ => s
    end%char in
  match digits with
  | EmptyString => Raises ValueError
  | _ => match parse_digits digits 0 with
         | Some v => Returns v
         | None => Raises ValueError
         end
  end.

(** [l[i]] on a list: [IndexError] out of range ([i >= 0]). *)
Definition getitem {A} (l : list A) (i : nat) : outcome A :=
  match nth_error l i with
  | Some a => Returns a
  | None => Raises IndexError
  end.

(** *** [dict] / [defaultdict(int)]

    A dictionary keeps its keys in insertion order, which [items()] exposes
    and on which the stable sort of [get_top_balances] depends; it is an
    association list with one entry per key, oldest key first. *)
Definition dict : Type := list (string * Z).

Fixpoint dict_get (k : string) (d : dict) : option Z :=
  match d with
  | [] => None
  | (k', v) :: d' => if String.eqb k' k then Some v else dict_get k d'
  end.

(** [d[k] = v]: overwrite in place, or append a new key at the end. *)
Fixpoint dict_set (k : string) (v : Z) (d : dict) : dict :=
  match d with
  | [] => [(k, v)]
  | (k', v') :: d' =>
      if String.eqb k' k then (k', v) :: d' else (k', v') :: dict_set k v d'
  end.

(** [d[k]] on a [defaultdict(int)]: a missing key reads as [int() = 0]
    (and is inserted, which the [dict_set] that always follows does). *)
Definition defaultdict_getitem (k : string) (d : dict) : Z :=
  match dict_get k d with
  | Some v => v
  | None => 0
  end.

(** [d[k] -= v] and [d[k] += v]. *)
Definition isub (k : string) (v : Z) (d : dict) : dict :=
  dict_set k (defaultdict_getitem k d - v) d.

Definition iadd (k : string) (v : Z) (d : dict) : dict :=
  dict_set k (defaultdict_getitem k d + v) d.

Definition items (d : dict) : list (string * Z) := d.

Definition keys (d : dict) : list string := map fst d.

Definition values (d : dict) : list Z := map snd d.

(** [sum(d.values())]. *)
Definition sum_values (d : dict) : Z := fold_right Z.add 0 (values d).

(** *** [sorted(..., key=..., reverse=True)] and [l[:n]]

    [sorted] is specified to be stable, also with [reverse=True]: elements
    with equal keys keep their input order.  The model is the stable
    insertion sort; [RankingFacts.sorted_reverse_unique] shows that no
    other stable descending arrangement of the input exists. *)
Section Sorted.
Context {A : Type} (key : A -> Z).

Fixpoint insert_desc (x : A) (l : list A) : list A :=
  match l with
  | [] => [x]
  | y :: l' =>
      if key y <=? key x then x :: y :: l' else y :: insert_desc x l'
  end.

Definition sorted_reverse (l : list A) : list A :=
  fold_right insert_desc [] l.
End Sorted.

(** [l[:n]]: the first [n] elements for [n >= 0], all but the last [-n]
    for [n < 0]. *)
Definition slice_to {A} (n : Z) (l : list A) : list A :=
  if 0 <=? n then firstn (Z.to_nat n) l
  else firstn (List.length l - Z.to_nat (- n)) l.

(** *** [datetime.fromtimestamp(ts, timezone.utc).isoformat()] *)

Definition digit (n : Z) : ascii := ascii_of_nat (48 + Z.to_nat (n mod 10)).

Definition pad2 (n : Z) (rest : string) : string :=
  String (digit (n / 10)) (String (digit n) rest).

Definition pad4 (n : Z) (rest : string) : string :=
  String (digit (n / 1000)) (String (digit (n / 100)) (pad2 n rest)).

(** Proleptic Gregorian date (year, month, day) of a day count relative to
    1970-01-01. *)
Definition civil_from_days (days : Z) : Z * Z * Z :=
  let z := days + 719468 in
  let era := z / 146097 in
  let doe := z mod 146097 in
  let yoe := (doe - doe / 1460 + doe / 36524 - doe / 146096) / 365 in
  let doy := doe - (365 * yoe + yoe / 4 - yoe / 100) in
  let mp := (5 * doy + 2) / 153 in
  let d := doy - (153 * mp + 2) / 5 + 1 in
  let m := if mp <? 10 then mp + 3 else mp - 9 in
  let y := yoe + era * 400 + (if m <=? 2 then 1 else 0) in
  (y, m, d).

(** An integer timestamp in UTC: ['YYYY-MM-DDTHH:MM:SS+00:00'].  Years
    outside 1..9999 make [fromtimestamp] raise. *)
Definition utc_isoformat (timestamp : Z) : outcome string :=
  let '(y, m, d) := civil_from_days (timestamp / 86400) in
  let secs := timestamp mod 86400 in
  if (1 <=? y) && (y <=? 9999) then
    Returns
      (pad4 y (String "-" (pad2 m (String "-" (pad2 d (String "T"
        (pad2 (secs / 3600) (String ":" (pad2 (secs / 60 mod 60) (String ":"
          (pad2 (secs mod 60) "+00:00")))))))))))
  else Raises ValueError.

End Py.

(** ** The block-range schedule shared by both scans *)

Module Scheduler.

(** [BLOCK_RANGE = 50000] (main.py:70 and main.py:142). *)
Definition BLOCK_RANGE : Z := 50000.

(** The literal [1000000] of [max(latest_block - 1000000, 0)]. *)
Definition WINDOW : Z := 1000000.

(** [end_block_limit = max(latest_block - 1000000, 0)] (main.py:72, 144). *)
Definition end_block_limit (latest_block : Z) : Z :=
  Z.max (latest_block - WINDOW) 0.

(** A requested range (fromBlock, toBlock), both ends inclusive. *)
Definition BlockRange : Type := (Z * Z)%type.

(** The [while start_block > end_block_limit] loop of main.py:76-79.
    [task end_block start_block] is what [tasks.append] receives and [tasks]
    the list built so far.  The loop variable [start_block] strictly
    decreases towards [limit]: that distance is the measure. *)
Equations? build_tasks {T : Type} (task : Z -> Z -> T)
    (start_block limit : Z) (tasks : list T)
  : list T by wf (Z.to_nat (start_block - limit)) lt :=
  build_tasks task start_block limit tasks with Z_gt_dec start_block limit => {
    | left _ =>
        let end_block := Z.max (start_block - BLOCK_RANGE + 1) limit in
        build_tasks task (end_block - 1) limit
                    (tasks ++ [task end_block start_block]);
    | right _ => tasks }.
Proof. subst end_block. unfold BLOCK_RANGE. lia. Qed.

(** The ranges requested by [get_all_transfer_events] for a given latest
    block, in the order the tasks are created (newest first). *)
Definition chunks (latest_block : Z) : list BlockRange :=
  build_tasks pair latest_block (end_block_limit latest_block) [].

(** Block [b] lies in the inclusive range [r]. *)
Definition in_range (b : Z) (r : BlockRange) : Prop := fst r <= b <= snd r.

Definition in_rangeb (b : Z) (r : BlockRange) : bool :=
  (fst r <=? b) && (b <=? snd r).

(** Block [b] is fetched by some range of the list. *)
Definition covered (b : Z) (rs : list BlockRange) : Prop :=
  exists r, In r rs /\ in_range b r.

Definition coveredb (b : Z) (rs : list BlockRange) : bool :=
  existsb (in_rangeb b) rs.

(** Number of blocks of a range. *)
Definition width (r : BlockRange) : Z := snd r - fst r + 1.

(** [tiles hi lo rs]: the ranges [rs], newest first, are non-empty, at most
    [BLOCK_RANGE] wide, and each starts right below the previous one; the
    first ends at [hi] and the last starts at [lo + 1]. *)
Inductive tiles : Z -> Z -> list BlockRange -> Prop :=
| tiles_nil : forall hi, tiles hi hi []
| tiles_cons : forall hi a lo rs,
    a <= hi -> hi - a + 1 <= BLOCK_RANGE ->
    tiles (a - 1) lo rs ->
    tiles hi lo ((a, hi) :: rs).

(** The lowest block the schedule reaches: the window floor, or the block
    above it when the window length is a multiple of [BLOCK_RANGE]. *)
Definition first_fetched (latest_block : Z) : Z :=
  let limit := end_block_limit latest_block in
  if (latest_block - limit) mod BLOCK_RANGE =? 0 then limit + 1 else limit.

End Scheduler.

(** ** The tracker *)

Module Tracker.
Import Py Scheduler.

(** A log record as the backend returns it. *)
Record RawLog : Type := mkLog {
  topics : list bytes;
  data : bytes;
  blockNumber : Z
}.

Definition ZERO_ADDRESS : string :=
  "0x0000000000000000000000000000000000000000".

(** ['0x' + log['topics'][i].hex()[26:]] *)
Definition topic_address (log : RawLog) (i : nat) : outcome string :=
  topic <~ getitem (topics log) i ;;
  Returns (String "0" (String "x" (drop 26 (hex topic)))).

(** *** [calculate_balances] (main.py:91-110) *)

(** The three reads at the head of the loop body (main.py:101-103):
    sender, receiver and amount of a log. *)
Definition decode (event : RawLog) : outcome (string * string * Z) :=
  from_address <~ topic_address event 1 ;;
  to_address <~ topic_address event 2 ;;
  value <~ int16 (hex (data event)) ;;
  Returns (from_address, to_address, value).

(** The two guarded updates (main.py:105-108). *)
Definition transfer (from_address to_address : string) (value : Z)
    (balances : dict) : dict :=
  let balances :=
    if negb (String.eqb from_address ZERO_ADDRESS)
    then isub from_address value balances else balances in
  if negb (String.eqb to_address ZERO_ADDRESS)
  then iadd to_address value balances else balances.

(** The body of [for event in events]. *)
Definition apply_event (balances : dict) (event : RawLog) : outcome dict :=
  d <~ decode event ;;
  let '(from_address, to_address, value) := d in
  Returns (transfer from_address to_address value balances).

Fixpoint apply_events (balances : dict) (events : list RawLog)
  : outcome dict :=
  match events with
  | [] => Returns balances
  | event :: events' =>
      balances' <~ apply_event balances event ;;
      apply_events balances' events'
  end.

Definition calculate_balances (events : list RawLog) : outcome dict :=
  apply_events [] events.

(** *** The ranking of [get_top_balances] (main.py:122):
    [sorted(balances.items(), key=lambda x: x[1], reverse=True)[:top_n]] *)
Definition sorted_balances (balances : dict) (top_n : Z)
  : list (string * Z) :=
  slice_to top_n (sorted_reverse snd (items balances)).

(** *** The backend and the calls made to it *)

(** The three remote operations of [self.web3.eth] the scans use.
    [get_block] gives the ['timestamp'] field of the block.  The backend
    is an oracle: during one query it answers a given request the same way
    each time, by a value or by an exception. *)
Record Web3 : Type := mkWeb3 {
  eth_block_number : outcome Z;
  eth_get_logs : Z -> Z -> outcome (list RawLog);
  eth_get_block : Z -> outcome Z
}.

Inductive Call : Type :=
| BlockNumber
| GetLogs (fromBlock toBlock : Z)
| GetBlock (number : Z).

(** A coroutine: it appends the remote calls it makes to the trace and
    returns or raises. *)
Definition M (A : Type) : Type := list Call -> outcome A * list Call.

Definition ret {A} (a : A) : M A := fun tr => (Returns a, tr).

Definition raise {A} (e : Exception) : M A := fun tr => (Raises e, tr).

Definition bind {A B} (m : M A) (k : A -> M B) : M B :=
  fun tr =>
    match m tr with
    | (Returns a, tr') => k a tr'
    | (Raises e, tr') => (Raises e, tr')
    end.

Notation "x <- m ;; k" := (bind m (fun x => k))
  (at level 61, m at next level, right associativity).

(** A pure computation that may raise, inside a coroutine. *)
Definition lift {A} (o : outcome A) : M A := fun tr => (o, tr).

(** [try: m  except Exception as e: ...] with the exception handed to the
    continuation as a value. *)
Definition attempt {A} (m : M A) : M (outcome A) :=
  fun tr => let '(o, tr') := m tr in (Returns o, tr').

(** [asyncio.gather] with [return_exceptions=True]: every task runs;
    results and exceptions come back in task order.  The trace lists the
    requests in task order too, the order in which the tasks are started. *)
Fixpoint gather_return_exceptions {A} (tasks : list (M A))
  : M (list (outcome A)) :=
  match tasks with
  | [] => ret []
  | t :: ts =>
      r <- attempt t ;;
      rs <- gather_return_exceptions ts ;;
      ret (r :: rs)
  end.

(** [asyncio.gather] without [return_exceptions]: the results in task
    order, or the exception of a task that raised.  The tasks are run one
    after the other here, against a backend that answers a repeated request
    the same way: what is modelled is the value returned for such a backend.
    The concurrent run interleaves the requests of the tasks, and a backend
    whose latest-block query succeeds for one task and fails for a later one
    makes it raise; neither the order of the requests across tasks nor that
    case is stated anywhere below. *)
Fixpoint gather {A} (tasks : list (M A)) : M (list A) :=
  match tasks with
  | [] => ret []
  | t :: ts =>
      r <- t ;;
      rs <- gather ts ;;
      ret (r :: rs)
  end.

Section Methods.
Variable web3 : Web3.

(** [get_last_block] (main.py:125-132). *)
Definition get_last_block : M Z :=
  fun tr => (eth_block_number web3, tr ++ [BlockNumber]).

(** [get_transfer_events] (main.py:42-60): the handler logs and
    re-raises. *)
Definition get_transfer_events (start_block end_block : Z)
  : M (list RawLog) :=
  r <- attempt (fun tr => (eth_get_logs web3 start_block end_block,
                           tr ++ [GetLogs start_block end_block])) ;;
  match r with
  | Returns logs => ret logs
  | Raises e => raise e
  end.

(** The [for result in results] loop of main.py:83-87. *)
Definition collect (all_events : list RawLog)
    (results : list (outcome (list RawLog))) : list RawLog :=
  fold_left
    (fun all_events result =>
       match result with
       | Raises _ => all_events
       | Returns logs => all_events ++ logs
       end)
    results all_events.

(** [get_all_transfer_events] (main.py:62-89). *)
Definition get_all_transfer_events : M (list RawLog) :=
  latest_block <- get_last_block ;;
  let start_block := latest_block in
  let end_block_limit := Z.max (latest_block - 1000000) 0 in
  let tasks :=
    build_tasks get_transfer_events start_block end_block_limit [] in
  results <- gather_return_exceptions tasks ;;
  ret (collect [] results).

(** [get_top_balances] (main.py:112-123). *)
Definition get_top_balances (top_n : Z) : M (list (string * Z)) :=
  events <- get_all_transfer_events ;;
  balances <- lift (calculate_balances events) ;;
  ret (sorted_balances balances top_n).

(** [last_transaction_block or 0] *)
Definition or0 (last : option Z) : Z :=
  match last with
  | Some b => if b =? 0 then 0 else b
  | None => 0
  end.

(** The [for log in logs] loop of main.py:152-156.  The assignments to
    [last_transaction_block] made before a log raises are kept. *)
Fixpoint scan_logs (address : string) (logs : list RawLog)
    (last : option Z) : outcome unit * option Z :=
  match logs with
  | [] => (Returns tt, last)
  | log :: logs' =>
      match topic_address log 1 with
      | Raises e => (Raises e, last)
      | Returns from_address =>
          match topic_address log 2 with
          | Raises e => (Raises e, last)
          | Returns to_address =>
              if String.eqb address from_address
                 || String.eqb address to_address
              then scan_logs address logs'
                     (Some (Z.max (or0 last) (blockNumber log)))
              else scan_logs address logs' last
          end
      end
  end.

(** The [while] loop of main.py:148-161; the result is
    [last_transaction_block] when the loop is left. *)
Equations? scan_window (address : string) (start_block limit : Z)
    (last : option Z) : M (option Z)
  by wf (Z.to_nat (start_block - limit)) lt :=
  scan_window address start_block limit last
    with Z_gt_dec start_block limit => {
    | left _ =>
        let end_block := Z.max (start_block - BLOCK_RANGE + 1) limit in
        r <- attempt (get_transfer_events end_block start_block) ;;
        match r with
        | Raises e => ret last
        | Returns logs =>
            match scan_logs address logs last with
            | (Raises e, last') => ret last'
            | (Returns _, last') =>
                scan_window address (end_block - 1) limit last'
            end
        end;
    | right _ => ret last }.
Proof. subst end_block. unfold BLOCK_RANGE. lia. Qed.

(** The timestamp resolution inside the [try] of main.py:164-167. *)
Definition resolve_date (block : Z) : M string :=
  timestamp <- (fun tr => (eth_get_block web3 block,
                           tr ++ [GetBlock block])) ;;
  lift (utc_isoformat timestamp).

(** [get_last_transaction_date] (main.py:134-171).  The test
    [if last_transaction_block:] holds for an integer other than 0 and
    fails for [None] and for 0. *)
Definition get_last_transaction_date (address : string) : M string :=
  latest_block <- get_last_block ;;
  let start_block := latest_block in
  let end_block_limit := Z.max (latest_block - 1000000) 0 in
  last_transaction_block <-
    scan_window address start_block end_block_limit None ;;
  match last_transaction_block with
  | Some block =>
      if block =? 0 then ret "N/A"%string
      else
        r <- attempt (resolve_date block) ;;
        match r with
        | Returns date => ret date
        | Raises e => ret "N/A"%string
        end
  | None => ret "N/A"%string
  end.

(** [get_top_balances_with_dates] (main.py:173-185): one date query per
    ranked address, gathered, then zipped with the ranking. *)
Definition get_top_balances_with_dates (top_n : Z)
  : M (list (string * Z * string)) :=
  top_balances <- get_top_balances top_n ;;
  let tasks :=
    map (fun entry => get_last_transaction_date (fst entry)) top_balances in
  last_transaction_dates <- gather tasks ;;
  ret (map (fun pair => (fst (fst pair), snd (fst pair), snd pair))
           (combine top_balances last_transaction_dates)).

End Methods.

End Tracker.

(** ** The HTTP endpoint of the ranking (server.py) *)

Module Server.
Import Py Tracker.

(** What an endpoint answers: the JSON body, or the [HTTPException] its
    handler raises, with its status code and the exception whose [str] is
    the detail. *)
Inductive Response (A : Type) : Type :=
| Body (content : A)
| HTTPException (status_code : Z) (detail : Exception).
Arguments Body {A} content.
Arguments HTTPException {A} status_code detail.

(** [try: return {...: await ...}]
    [except Exception as e: raise HTTPException(status_code=500, ...)] *)
Definition guarded {A} (m : M A) : list Call -> Response A * list Call :=
  fun tr =>
    match m tr with
    | (Returns a, tr') => (Body a, tr')
    | (Raises e, tr') => (HTTPException 500 e, tr')
    end.

(** [GET /get_top_balances] (server.py:49-55); [top_n] is any integer of
    the query string. *)
Definition get_top_balances (tracker : Web3) (top_n : Z)
  : list Call -> Response (list (string * Z)) * list Call :=
  guarded (Tracker.get_top_balances tracker top_n).

End Server.

(** ** Sample logs and backends *)

Module Fixtures.
Import Py Tracker.

Definition byte_of (n : Z) : byte :=
  match Byte.of_N (Z.to_N (n mod 256)) with
  | Some b => b
  | None => x00
  end.

(** [n] as [len] big-endian bytes. *)
Fixpoint be_bytes (len : nat) (n : Z) : bytes :=
  match len with
  | O => []
  | S len' => be_bytes len' (n / 256) ++ [byte_of n]
  end.

(** A 32-byte topic or data word. *)
Definition word32 (n : Z) : bytes := be_bytes 32 n.

(** [keccak('Transfer(address,address,uint256)')], the first topic of every
    log the filter of [get_transfer_events] lets through. *)
Definition TRANSFER_EVENT_SIGNATURE : bytes :=
  word32 0xddf252ad1be2c89b69c2b068fc378daa952ba7f163c4a11628f55a4df523b3ef.

(** The log of a transfer of [value] from account [sender] to account
    [receiver] in block [block]. *)
Definition transfer_log (sender receiver value block : Z) : RawLog :=
  mkLog [TRANSFER_EVENT_SIGNATURE; word32 sender; word32 receiver]
        (word32 value) block.

(** A log with the signature topic only. *)
Definition short_log (block : Z) : RawLog :=
  mkLog [TRANSFER_EVENT_SIGNATURE] (word32 1) block.

(** A log with an empty data field. *)
Definition no_data_log (sender receiver block : Z) : RawLog :=
  mkLog [TRANSFER_EVENT_SIGNATURE; word32 sender; word32 receiver] [] block.

(** The address string of account [n]. *)
Definition address_of (n : Z) : string :=
  String "0" (String "x" (drop 26 (hex (word32 n)))).

Definition alice : string := address_of 0xA.
Definition bob : string := address_of 0xB.
Definition carol : string := address_of 0xC.

(** A chain at block 120,000 whose newest range cannot be fetched; the
    range below it holds a transfer from alice to bob in block 30,000. *)
Definition flaky : Web3 :=
  mkWeb3 (Returns 120000)
         (fun fromBlock toBlock =>
            if fromBlock =? 70001 then Raises (BackendError 429)
            else if fromBlock =? 20001
                 then Returns [transfer_log 0xA 0xB 100 30000]
                 else Returns [])
         (fun number => Returns 1700000000).

(** A chain at block 10 with one transfer from alice to bob in block
    [block]; block lookups fail when [lookup_fails]. *)
Definition tiny (block : Z) (lookup_fails : bool) : Web3 :=
  mkWeb3 (Returns 10)
         (fun fromBlock toBlock => Returns [transfer_log 0xA 0xB 100 block])
         (fun number =>
            if lookup_fails then Raises (BackendError 503)
            else Returns 1700000000).

(** A chain at block 10 without any transfer. *)
Definition quiet : Web3 :=
  mkWeb3 (Returns 10) (fun fromBlock toBlock => Returns [])
         (fun number => Returns 1700000000).

End Fixtures.

(** * Properties *)

(** ** The schedule *)

Module SchedulerFacts.
Import Scheduler.

Lemma build_tasks_unfold {T} (task : Z -> Z -> T) s l tasks :
  build_tasks task s l tasks =
  if s >? l then
    build_tasks task (Z.max (s - BLOCK_RANGE + 1) l - 1) l
      (tasks ++ [task (Z.max (s - BLOCK_RANGE + 1) l) s])
  else tasks.
Proof.
  rewrite build_tasks_equation_1.
  destruct (Z_gt_dec s l) as [H | H]; simpl.
  - apply Z.gt_lt, Z.gtb_lt in H. now rewrite H.
  - destruct (s >? l) eqn:E; [| reflexivity].
    apply Z.gtb_lt in E. lia.
Qed.

(** Induction along the loop: to prove [P] of a start block, assume it of
    the start block of the next iteration. *)
Lemma loop_ind (l : Z) (P : Z -> Prop) :
  (forall s, (s > l -> P (Z.max (s - BLOCK_RANGE + 1) l - 1)) -> P s) ->
  forall s, P s.
Proof.
  intros step s.
  remember (Z.to_nat (s - l)) as n eqn:En.
  revert s En.
  induction n as [n IH] using lt_wf_ind.
  intros s En. apply step. intros Hs.
  apply (IH (Z.to_nat (Z.max (s - BLOCK_RANGE + 1) l - 1 - l))).
  - unfold BLOCK_RANGE. lia.
  - reflexivity.
Qed.

(** The accumulator is only ever extended. *)
Lemma build_tasks_app {T} (task : Z -> Z -> T) l s :
  forall tasks,
    build_tasks task s l tasks = tasks ++ build_tasks task s l [].
Proof.
  pattern s. apply (loop_ind l). clear s. intros s IH tasks.
  rewrite (build_tasks_unfold task s l tasks).
  rewrite (build_tasks_unfold task s l []).
  destruct (s >? l) eqn:E.
  - apply Z.gtb_lt in E.
    rewrite IH by lia. rewrite (IH ltac:(lia) ([] ++ _)).
    simpl. now rewrite <- app_assoc.
  - now rewrite app_nil_r.
Qed.

Lemma build_tasks_step {T} (task : Z -> Z -> T) l s :
  s > l ->
  build_tasks task s l [] =
  task (Z.max (s - BLOCK_RANGE + 1) l) s
    :: build_tasks task (Z.max (s - BLOCK_RANGE + 1) l - 1) l [].
Proof.
  intros H. rewrite build_tasks_unfold.
  apply Z.gt_lt, Z.gtb_lt in H. rewrite H.
  now rewrite build_tasks_app.
Qed.

Lemma build_tasks_done {T} (task : Z -> Z -> T) l s :
  s <= l -> build_tasks task s l [] = [].
Proof.
  intros H. rewrite build_tasks_unfold.
  destruct (s >? l) eqn:E; [| reflexivity].
  apply Z.gtb_lt in E. lia.
Qed.

(** The tasks are the images of the ranges. *)
Lemma build_tasks_map {T} (task : Z -> Z -> T) l s :
  build_tasks task s l [] =
  map (fun r => task (fst r) (snd r)) (build_tasks pair s l []).
Proof.
  pattern s. apply (loop_ind l). clear s. intros s IH.
  destruct (Z_gt_dec s l) as [H | H].
  - rewrite (build_tasks_step task l s H), (build_tasks_step pair l s H).
    simpl. now rewrite IH.
  - rewrite (build_tasks_done task l s), (build_tasks_done pair l s) by lia.
    reflexivity.
Qed.

(** Where the loop stops: one below the last block it requested. *)
Definition stop (l s : Z) : Z :=
  if s <? l then s
  else if (s - l) mod BLOCK_RANGE =? 0 then l else l - 1.

Lemma stop_next l s :
  s > l -> stop l (Z.max (s - BLOCK_RANGE + 1) l - 1) = stop l s.
Proof.
  intros H. unfold stop, BLOCK_RANGE.
  destruct (Z.max_spec (s - 50000 + 1) l) as [[Hlt Hm] | [Hge Hm]];
    rewrite Hm.
  - destruct (l - 1 <? l) eqn:E1; [| apply Z.ltb_ge in E1; lia].
    destruct (s <? l) eqn:E2; [apply Z.ltb_lt in E2; lia |].
    rewrite Z.mod_small by lia.
    destruct (s - l =? 0) eqn:E3; [apply Z.eqb_eq in E3; lia | reflexivity].
  - destruct (s <? l) eqn:E2; [apply Z.ltb_lt in E2; lia |].
    destruct (s - 50000 + 1 - 1 <? l) eqn:E1.
    { apply Z.ltb_lt in E1. replace (s - l) with 49999 by lia.
      simpl. lia. }
    replace (s - 50000 + 1 - 1 - l) with (s - l + (-1) * 50000) by lia.
    now rewrite Z_mod_plus_full.
Qed.

Lemma build_tasks_tiles l s :
  l - 1 <= s -> tiles s (stop l s) (build_tasks pair s l []).
Proof.
  pattern s. apply (loop_ind l). clear s. intros s IH Hs.
  destruct (Z_gt_dec s l) as [H | H].
  - rewrite build_tasks_step by assumption.
    rewrite <- (stop_next l s H).
    apply tiles_cons.
    + unfold BLOCK_RANGE. lia.
    + unfold BLOCK_RANGE. lia.
    + apply IH; [assumption | unfold BLOCK_RANGE; lia].
  - rewrite build_tasks_done by lia.
    replace (stop l s) with s; [apply tiles_nil |].
    unfold stop. destruct (s <? l) eqn:E; [reflexivity |].
    apply Z.ltb_ge in E. assert (s = l) by lia. subst s.
    now rewrite Z.sub_diag.
Qed.

Lemma tiles_bounds hi lo rs :
  tiles hi lo rs ->
  lo <= hi /\ Forall (fun r => lo < fst r /\ fst r <= snd r <= hi) rs.
Proof.
  induction 1 as [hi | hi a lo rs Ha Hw Ht [IHlo IHall]].
  - split; [lia | constructor].
  - split; [lia |]. constructor; [simpl; lia |].
    eapply Forall_impl; [| exact IHall]. simpl. intros r Hr. lia.
Qed.

(** A tiling covers exactly the blocks above [lo] up to [hi]. *)
Lemma tiles_covered hi lo rs :
  tiles hi lo rs -> forall b, covered b rs <-> lo < b <= hi.
Proof.
  induction 1 as [hi | hi a lo rs Ha Hw Ht IH]; intros b.
  - split; [intros (r & [] & _) | lia].
  - pose proof (tiles_bounds _ _ _ Ht) as [Hlo _].
    split.
    + intros (r & [<- | Hin] & Hb).
      * unfold in_range in Hb. simpl in Hb. lia.
      * assert (covered b rs) as Hc by (exists r; auto).
        apply IH in Hc. lia.
    + intros Hb. destruct (Z_le_gt_dec a b) as [Hab | Hab].
      * exists (a, hi). split; [now left |]. unfold in_range. simpl. lia.
      * destruct (proj2 (IH b)) as (r & Hin & Hr); [lia |].
        exists r. split; [now right | assumption].
Qed.

Definition disjoint (r1 r2 : BlockRange) : Prop :=
  forall b, ~ (in_range b r1 /\ in_range b r2).

(** No two ranges of a tiling share a block. *)
Lemma tiles_disjoint hi lo rs :
  tiles hi lo rs -> ForallOrdPairs disjoint rs.
Proof.
  induction 1 as [hi | hi a lo rs Ha Hw Ht IH].
  - constructor.
  - constructor; [| assumption].
    pose proof (tiles_bounds _ _ _ Ht) as [_ Hall].
    eapply Forall_impl; [| exact Hall].
    intros r Hr b [H1 H2]. unfold in_range in *. simpl in *. lia.
Qed.

Lemma tiles_width hi lo rs :
  tiles hi lo rs -> Forall (fun r => 1 <= width r <= BLOCK_RANGE) rs.
Proof.
  induction 1; constructor; [unfold width; simpl; lia | assumption].
Qed.

Lemma chunks_tiles latest_block :
  0 <= latest_block ->
  tiles latest_block (first_fetched latest_block - 1) (chunks latest_block).
Proof.
  intros H. unfold chunks, first_fetched.
  set (l := end_block_limit latest_block).
  assert (l <= latest_block) as Hl
    by (subst l; unfold end_block_limit, WINDOW; lia).
  replace (_ - 1) with (stop l latest_block).
  - apply build_tasks_tiles. lia.
  - unfold stop. destruct (latest_block <? l) eqn:E;
      [apply Z.ltb_lt in E; lia |].
    destruct (_ =? 0); lia.
Qed.

(** What the schedule does for every latest block: the ranges are
    contiguous, pairwise disjoint, between 1 and [BLOCK_RANGE] blocks wide,
    and their union is the interval from [first_fetched] to the latest
    block. *)
Theorem chunks_partition latest_block :
  0 <= latest_block ->
  (exists lo, tiles latest_block lo (chunks latest_block)) /\
  ForallOrdPairs disjoint (chunks latest_block) /\
  Forall (fun r => 1 <= width r <= BLOCK_RANGE) (chunks latest_block) /\
  forall b, covered b (chunks latest_block) <->
            first_fetched latest_block <= b <= latest_block.
Proof.
  intros H. pose proof (chunks_tiles latest_block H) as Ht.
  split; [eauto |]. split; [eapply tiles_disjoint; eauto |].
  split; [eapply tiles_width; eauto |].
  intros b. rewrite (tiles_covered _ _ _ Ht b). lia.
Qed.

Lemma chunks_partition_witness :
  forall b, covered b (chunks 120000) <-> first_fetched 120000 <= b <= 120000.
Proof. apply (chunks_partition 120000). lia. Defined.

(** With a full window the floor block is never requested. *)
Lemma first_fetched_full_window latest_block :
  WINDOW <= latest_block ->
  first_fetched latest_block = end_block_limit latest_block + 1.
Proof.
  intros H. unfold first_fetched, end_block_limit, WINDOW, BLOCK_RANGE in *.
  rewrite Z.max_l by lia.
  replace (latest_block - (latest_block - 1000000)) with 1000000 by lia.
  reflexivity.
Qed.

Lemma first_fetched_full_window_witness :
  first_fetched 60000000 = end_block_limit 60000000 + 1.
Proof. apply first_fetched_full_window. unfold WINDOW. lia. Defined.

(** C1, at the latest block 60,000,000: the window floor
    [max(60000000 - 1000000, 0) = 59000000] belongs to no requested range;
    the twenty ranges cover the blocks 59,000,001 to 60,000,000 only. *)
Theorem chunks_miss_window_floor :
  end_block_limit 60000000 = 59000000 /\
  ~ covered 59000000 (chunks 60000000) /\
  (forall b, covered b (chunks 60000000) <-> 59000001 <= b <= 60000000).
Proof.
  assert (forall b, covered b (chunks 60000000) <->
                    59000001 <= b <= 60000000) as Hc.
  { intros b.
    destruct (chunks_partition 60000000 ltac:(lia)) as (_ & _ & _ & Hcov).
    rewrite Hcov. rewrite first_fetched_full_window by (unfold WINDOW; lia).
    unfold end_block_limit, WINDOW. lia. }
  split; [reflexivity |]. split; [| exact Hc].
  intros H. apply Hc in H. lia.
Qed.

(** The same loop guard gives no range at all when the chain is at block
    0, and skips block 0 when the latest block is a multiple of
    [BLOCK_RANGE]. *)
Lemma chunks_latest_0 : chunks 0 = [].
Proof. reflexivity. Qed.

Lemma chunks_latest_50000 : chunks 50000 = [(1, 50000)].
Proof. reflexivity. Qed.

End SchedulerFacts.

(** ** Decoding *)

Module DecodeFacts.
Import Py Tracker.

(** The unsigned big-endian value of a byte string. *)
Definition be_value (acc : Z) (bs : bytes) : Z :=
  fold_left (fun acc b => 256 * acc + Z.of_N (Byte.to_N b)) bs acc.

Lemma parse_digits_byte (b : byte) (rest : string) (acc : Z) :
  parse_digits (byte_hex b rest) acc =
  parse_digits rest (256 * acc + Z.of_N (Byte.to_N b)).
Proof.
  destruct b; unfold byte_hex; cbn -[Z.mul Z.add]; f_equal; lia.
Qed.

Lemma parse_digits_hex (bs : bytes) :
  forall acc,
    parse_digits (fold_right byte_hex EmptyString bs) acc
    = Some (be_value acc bs).
Proof.
  induction bs as [| b bs IH]; intros acc; [reflexivity |].
  cbn [fold_right]. rewrite parse_digits_byte, IH. reflexivity.
Qed.

(** [int(data.hex(), 16)] is the big-endian value of [data], and a
    [ValueError] exactly when [data] is empty. *)
Lemma int16_hex (bs : bytes) :
  int16 (hex bs) =
  match bs with
  | [] => Raises ValueError
  | _ => Returns (be_value 0 bs)
  end.
Proof.
  destruct bs as [| b bs]; [reflexivity |].
  unfold hex, int16. cbn [fold_right].
  change (byte_hex b (fold_right byte_hex EmptyString bs))
    with (fold_right byte_hex EmptyString (b :: bs)).
  rewrite parse_digits_hex.
  reflexivity.
Qed.

Lemma topic_address_short (log : RawLog) (i : nat) :
  (List.length (topics log) <= i)%nat ->
  topic_address log i = Raises IndexError.
Proof.
  intros H. unfold topic_address, getitem.
  apply nth_error_None in H. now rewrite H.
Qed.

Lemma topic_address_ok (log : RawLog) (i : nat) :
  (i < List.length (topics log))%nat ->
  exists a, topic_address log i = Returns a.
Proof.
  intros H. unfold topic_address, getitem.
  destruct (nth_error (topics log) i) eqn:E.
  - simpl. eauto.
  - apply nth_error_None in E. lia.
Qed.

Lemma decode_short_topics (log : RawLog) :
  (List.length (topics log) < 3)%nat -> decode log = Raises IndexError.
Proof.
  intros H. unfold decode.
  destruct (Nat.le_gt_cases (List.length (topics log)) 1) as [H1 | H1].
  - now rewrite topic_address_short.
  - destruct (topic_address_ok log 1 H1) as [a ->]. simpl.
    rewrite topic_address_short by lia. reflexivity.
Qed.

Lemma decode_empty_data (log : RawLog) :
  (3 <= List.length (topics log))%nat -> data log = [] ->
  decode log = Raises ValueError.
Proof.
  intros H Hd. unfold decode.
  destruct (topic_address_ok log 1 ltac:(lia)) as [a ->].
  destruct (topic_address_ok log 2 ltac:(lia)) as [b ->].
  simpl. rewrite Hd. reflexivity.
Qed.

(** Decoding fails in no other case. *)
Lemma decode_well_formed (log : RawLog) :
  (3 <= List.length (topics log))%nat -> data log <> [] ->
  exists a b, topic_address log 1 = Returns a /\
              topic_address log 2 = Returns b /\
              decode log = Returns (a, b, be_value 0 (data log)).
Proof.
  intros H Hd. unfold decode.
  destruct (topic_address_ok log 1 ltac:(lia)) as [a Ha].
  destruct (topic_address_ok log 2 ltac:(lia)) as [b Hb].
  exists a, b. rewrite Ha, Hb. simpl. rewrite int16_hex.
  destruct (data log); [contradiction | auto].
Qed.

End DecodeFacts.

(** ** The ledger *)

Module LedgerFacts.
Import Py Tracker.

Lemma dict_get_set (k k' : string) (v : Z) (d : dict) :
  dict_get k (dict_set k' v d) =
  if String.eqb k' k then Some v else dict_get k d.
Proof.
  induction d as [| [k0 v0] d IH]; simpl.
  - destruct (String.eqb k' k); reflexivity.
  - destruct (String.eqb k0 k') eqn:E0; simpl.
    + apply String.eqb_eq in E0. subst k0.
      destruct (String.eqb k' k); reflexivity.
    + rewrite IH. destruct (String.eqb k0 k) eqn:E1; [| reflexivity].
      apply String.eqb_eq in E1. subst k0.
      rewrite String.eqb_sym in E0. now rewrite E0.
Qed.

Lemma dict_get_keys (k : string) (d : dict) :
  dict_get k d <> None <-> In k (keys d).
Proof.
  induction d as [| [k0 v0] d IH]; simpl.
  - split; [congruence | tauto].
  - destruct (String.eqb k0 k) eqn:E.
    + apply String.eqb_eq in E. split; [auto | congruence].
    + apply String.eqb_neq in E. rewrite IH. tauto.
Qed.

Lemma sum_values_set (k : string) (v : Z) (d : dict) :
  sum_values (dict_set k v d) = sum_values d - defaultdict_getitem k d + v.
Proof.
  unfold sum_values, values, defaultdict_getitem.
  induction d as [| [k0 v0] d IH]; simpl; [lia |].
  destruct (String.eqb k0 k); simpl; [lia |].
  rewrite IH. lia.
Qed.

(** Assignment keeps the keys, or appends the new key after them. *)
Lemma keys_dict_set (k : string) (v : Z) (d : dict) :
  keys (dict_set k v d) =
  match dict_get k d with
  | Some _ => keys d
  | None => keys d ++ [k]
  end.
Proof.
  unfold keys. induction d as [| [k0 v0] d IH]; simpl; [reflexivity |].
  destruct (String.eqb k0 k); simpl; [reflexivity |].
  rewrite IH. now destruct (dict_get k d).
Qed.

Lemma dict_set_NoDup (k : string) (v : Z) (d : dict) :
  NoDup (keys d) -> NoDup (keys (dict_set k v d)).
Proof.
  intros H. rewrite keys_dict_set.
  destruct (dict_get k d) eqn:E; [assumption |].
  apply NoDup_app; [assumption | repeat constructor; intros [] |].
  intros x Hx [<- | []].
  apply dict_get_keys in Hx. contradiction.
Qed.

(** The effect of one guarded update on the entry of key [k]: when [hit],
    the entry exists afterwards and has moved by [c]. *)
Definition touch (hit : bool) (c : Z) (o : option Z) : option Z :=
  if hit then Some (match o with Some v => v | None => 0 end + c) else o.

Lemma touch_comm b1 c1 b2 c2 o :
  touch b1 c1 (touch b2 c2 o) = touch b2 c2 (touch b1 c1 o).
Proof. destruct b1, b2, o; simpl; try reflexivity; f_equal; lia. Qed.

Lemma dict_get_isub (k a : string) (v : Z) (d : dict) :
  dict_get k (isub a v d) = touch (String.eqb a k) (- v) (dict_get k d).
Proof.
  unfold isub, touch, defaultdict_getitem. rewrite dict_get_set.
  destruct (String.eqb a k) eqn:E; [| reflexivity].
  apply String.eqb_eq in E. now subst a.
Qed.

Lemma dict_get_iadd (k a : string) (v : Z) (d : dict) :
  dict_get k (iadd a v d) = touch (String.eqb a k) v (dict_get k d).
Proof.
  unfold iadd, touch, defaultdict_getitem. rewrite dict_get_set.
  destruct (String.eqb a k) eqn:E; [| reflexivity].
  apply String.eqb_eq in E. now subst a.
Qed.

Definition holder (a k : string) : bool :=
  negb (String.eqb a ZERO_ADDRESS) && String.eqb a k.

(** The entry of [k] after a transfer is a function of its entry before. *)
Lemma dict_get_transfer (k a b : string) (v : Z) (d : dict) :
  dict_get k (transfer a b v d) =
  touch (holder b k) v (touch (holder a k) (- v) (dict_get k d)).
Proof.
  unfold transfer, holder.
  destruct (String.eqb b ZERO_ADDRESS); simpl;
    destruct (String.eqb a ZERO_ADDRESS); simpl;
    rewrite ?dict_get_iadd, ?dict_get_isub; reflexivity.
Qed.

(** Two dictionaries with the same entries ([==] on [dict]). *)
Definition dict_eq (d d' : dict) : Prop :=
  forall k, dict_get k d = dict_get k d'.

Lemma dict_eq_keys (d d' : dict) :
  dict_eq d d' -> forall k, In k (keys d) <-> In k (keys d').
Proof.
  intros H k. rewrite <- !dict_get_keys, (H k). tauto.
Qed.

Lemma transfer_dict_eq a b v d d' :
  dict_eq d d' -> dict_eq (transfer a b v d) (transfer a b v d').
Proof. intros H k. rewrite !dict_get_transfer, (H k). reflexivity. Qed.

Lemma transfer_comm a1 b1 v1 a2 b2 v2 d d' :
  dict_eq d d' ->
  dict_eq (transfer a2 b2 v2 (transfer a1 b1 v1 d))
          (transfer a1 b1 v1 (transfer a2 b2 v2 d')).
Proof.
  intros H k. rewrite !dict_get_transfer, (H k).
  rewrite (touch_comm (holder a2 k)), (touch_comm (holder b2 k)).
  f_equal.
  rewrite (touch_comm (holder a2 k)), (touch_comm (holder b2 k)).
  reflexivity.
Qed.

(** Two runs of the aggregation end alike: both raise, or both return and
    the two ledgers have the same keys and the same balance for every key. *)
Definition same_ledger (o o' : outcome dict) : Prop :=
  match o, o' with
  | Returns L, Returns L' =>
      (forall k, In k (keys L) <-> In k (keys L')) /\
      (forall k, dict_get k L = dict_get k L')
  | Raises _, Raises _ => True
  | _, _ => False
  end.

Lemma same_ledger_trans o1 o2 o3 :
  same_ledger o1 o2 -> same_ledger o2 o3 -> same_ledger o1 o3.
Proof.
  destruct o1, o2, o3; simpl; try tauto.
  intros [K1 V1] [K2 V2]. split; intros k.
  - rewrite K1. apply K2.
  - rewrite V1. apply V2.
Qed.

Lemma apply_events_dict_eq (events : list RawLog) :
  forall d d', dict_eq d d' ->
    same_ledger (apply_events d events) (apply_events d' events).
Proof.
  induction events as [| e events IH]; intros d d' H; simpl.
  - split; [apply dict_eq_keys |]; assumption.
  - unfold apply_event. destruct (decode e) as [[[a b] v] | x]; simpl; [| exact I].
    apply IH. now apply transfer_dict_eq.
Qed.

Lemma apply_events_permutation (E E' : list RawLog) :
  Permutation E E' ->
  forall d d', dict_eq d d' ->
    same_ledger (apply_events d E) (apply_events d' E').
Proof.
  induction 1 as [| e E E' HP IH | e1 e2 E | E1 E2 E3 HP1 IH1 HP2 IH2];
    intros d d' H.
  - now apply apply_events_dict_eq.
  - simpl. unfold apply_event.
    destruct (decode e) as [[[a b] v] | x]; simpl; [| exact I].
    apply IH. now apply transfer_dict_eq.
  - simpl. unfold apply_event.
    destruct (decode e1) as [[[a1 b1] v1] | x1],
             (decode e2) as [[[a2 b2] v2] | x2]; simpl; try exact I.
    apply apply_events_dict_eq. now apply transfer_comm.
  - eapply same_ledger_trans; [apply (IH1 d d) | apply (IH2 d d' H)].
    intros k. reflexivity.
Qed.

(** C2: [calculate_balances] does not depend on the order of the events.
    For every permutation [E'] of [E] the two calls end alike: when they
    return, the ledgers have the same set of keys and the same signed
    balance for every key (and when [E] holds a log that cannot be decoded
    both calls raise). *)
Theorem calculate_balances_permutation (E E' : list RawLog) :
  Permutation E E' ->
  same_ledger (calculate_balances E) (calculate_balances E').
Proof.
  intros HP. unfold calculate_balances.
  apply apply_events_permutation; [assumption |].
  intros k. reflexivity.
Qed.

Lemma calculate_balances_permutation_witness :
  let E := [Fixtures.transfer_log 0xA 0xB 100 10;
            Fixtures.transfer_log 0xB 0xC 40 20] in
  let E' := [Fixtures.transfer_log 0xB 0xC 40 20;
             Fixtures.transfer_log 0xA 0xB 100 10] in
  Permutation E E' /\
  same_ledger (calculate_balances E) (calculate_balances E').
Proof.
  split; [apply perm_swap |].
  apply calculate_balances_permutation. apply perm_swap.
Defined.

(** The ledger of the two-transfer history A -> B (100), B -> C (40). *)
Example calculate_balances_two_transfers :
  calculate_balances [Fixtures.transfer_log 0xA 0xB 100 10;
                      Fixtures.transfer_log 0xB 0xC 40 20]
  = Returns [(Fixtures.alice, -100); (Fixtures.bob, 60); (Fixtures.carol, 40)].
Proof. vm_compute. reflexivity. Qed.

(** Every address has one entry in the ledger. *)
Lemma transfer_NoDup a b v d :
  NoDup (keys d) -> NoDup (keys (transfer a b v d)).
Proof.
  intros H. unfold transfer, isub, iadd.
  destruct (String.eqb a ZERO_ADDRESS), (String.eqb b ZERO_ADDRESS); simpl;
    repeat apply dict_set_NoDup; assumption.
Qed.

Lemma calculate_balances_NoDup (E : list RawLog) (L : dict) :
  calculate_balances E = Returns L -> NoDup (keys L).
Proof.
  unfold calculate_balances.
  assert (NoDup (keys [])) as H0 by constructor.
  revert H0. generalize (@nil (string * Z)) as d. revert L.
  induction E as [| e E IH]; intros L d Hd H; simpl in H.
  - now inversion H; subst.
  - unfold apply_event in H.
    destruct (decode e) as [[[a b] v] | x]; simpl in H; [| discriminate].
    apply (IH L (transfer a b v d)); [now apply transfer_NoDup | exact H].
Qed.

(** *** The zero address *)

Lemma holder_zero (a : string) : holder a ZERO_ADDRESS = false.
Proof. unfold holder. now destruct (String.eqb a ZERO_ADDRESS). Qed.

Lemma apply_events_zero (events : list RawLog) :
  forall d L,
    dict_get ZERO_ADDRESS d = None ->
    apply_events d events = Returns L ->
    dict_get ZERO_ADDRESS L = None.
Proof.
  induction events as [| e events IH]; intros d L Hd H; simpl in H.
  - now inversion H; subst.
  - unfold apply_event in H.
    destruct (decode e) as [[[a b] v] | x]; simpl in H; [| discriminate].
    apply (IH (transfer a b v d)); [| exact H].
    rewrite dict_get_transfer, !holder_zero. exact Hd.
Qed.

(** C7: the zero address is never a key of a ledger returned by
    [calculate_balances]: no entry is created for it, neither by the debit
    of a sender nor by the credit of a receiver. *)
Theorem zero_address_not_a_key (E : list RawLog) (L : dict) :
  calculate_balances E = Returns L ->
  dict_get ZERO_ADDRESS L = None /\ ~ In ZERO_ADDRESS (keys L).
Proof.
  intros H. unfold calculate_balances in H.
  assert (dict_get ZERO_ADDRESS L = None) as Hz
    by (apply (apply_events_zero E [] L); [reflexivity | assumption]).
  split; [assumption |].
  intros Hin. apply dict_get_keys in Hin. contradiction.
Qed.

Lemma zero_address_not_a_key_witness :
  let E := [Fixtures.transfer_log 0 0xA 100 10;
            Fixtures.transfer_log 0xA 0 30 20] in
  calculate_balances E = Returns [(Fixtures.alice, 70)] /\
  dict_get ZERO_ADDRESS [(Fixtures.alice, 70)] = None /\
  ~ In ZERO_ADDRESS (keys [(Fixtures.alice, 70)]).
Proof.
  split; [vm_compute; reflexivity |].
  apply (zero_address_not_a_key
           [Fixtures.transfer_log 0 0xA 100 10;
            Fixtures.transfer_log 0xA 0 30 20]).
  vm_compute. reflexivity.
Defined.

(** *** The sum of the balances *)

Definition is_zero (a : string) : bool := String.eqb a ZERO_ADDRESS.

(** The total amount of the decodable events whose sender and receiver
    satisfy [p]. *)
Definition amount_where (p : string -> string -> bool) (E : list RawLog)
  : Z :=
  fold_right
    (fun e acc =>
       match decode e with
       | Returns (a, b, v) => if p a b then v + acc else acc
       | Raises _ => acc
       end) 0 E.

(** Amount sent from the zero address to a holder. *)
Definition minted : list RawLog -> Z :=
  amount_where (fun a b => is_zero a && negb (is_zero b)).

(** Amount sent by a holder to the zero address. *)
Definition burned : list RawLog -> Z :=
  amount_where (fun a b => negb (is_zero a) && is_zero b).

Lemma sum_values_isub a v d : sum_values (isub a v d) = sum_values d - v.
Proof. unfold isub. rewrite sum_values_set. lia. Qed.

Lemma sum_values_iadd a v d : sum_values (iadd a v d) = sum_values d + v.
Proof. unfold iadd. rewrite sum_values_set. lia. Qed.

Lemma sum_values_transfer a b v d :
  sum_values (transfer a b v d) =
  sum_values d + (if is_zero b then 0 else v) - (if is_zero a then 0 else v).
Proof.
  unfold transfer, is_zero.
  destruct (String.eqb b ZERO_ADDRESS), (String.eqb a ZERO_ADDRESS); simpl;
    rewrite ?sum_values_iadd, ?sum_values_isub; lia.
Qed.

Lemma apply_events_sum (E : list RawLog) :
  forall d L,
    apply_events d E = Returns L ->
    sum_values L = sum_values d + minted E - burned E.
Proof.
  unfold minted, burned.
  induction E as [| e E IH]; intros d L H; simpl in H.
  - inversion H; subst. simpl. lia.
  - unfold apply_event in H. simpl.
    destruct (decode e) as [[[a b] v] | x]; simpl in H; [| discriminate].
    rewrite (IH _ _ H), sum_values_transfer.
    destruct (is_zero a), (is_zero b); simpl; lia.
Qed.

(** C9, as the code has it: the balances of the ledger sum to the amount
    minted (sent from the zero address to holders) minus the amount burned
    (sent by holders to the zero address) in [E]. *)
Theorem sum_of_balances_is_net_supply (E : list RawLog) (L : dict) :
  calculate_balances E = Returns L ->
  sum_values L = minted E - burned E.
Proof.
  intros H. rewrite (apply_events_sum E [] L H). reflexivity.
Qed.

Lemma sum_of_balances_is_net_supply_witness :
  let E := [Fixtures.transfer_log 0 0xA 100 10;
            Fixtures.transfer_log 0xA 0xB 25 15;
            Fixtures.transfer_log 0xA 0 30 20] in
  calculate_balances E = Returns [(Fixtures.alice, 45); (Fixtures.bob, 25)] /\
  sum_values [(Fixtures.alice, 45); (Fixtures.bob, 25)] = minted E - burned E.
Proof.
  split; [vm_compute; reflexivity |].
  apply sum_of_balances_is_net_supply. vm_compute. reflexivity.
Defined.

(** Transfers between holders alone keep the sum at zero. *)
Lemma amount_where_false p E :
  (forall e a b v, In e E -> decode e = Returns (a, b, v) -> p a b = false) ->
  amount_where p E = 0.
Proof.
  induction E as [| e E IH]; intros H; simpl; [reflexivity |].
  destruct (decode e) as [[[a b] v] | x] eqn:Ed.
  - rewrite (H e a b v (or_introl eq_refl) Ed).
    apply IH. intros e' a' b' v' Hin. apply H. now right.
  - apply IH. intros e' a' b' v' Hin. apply H. now right.
Qed.

Lemma sum_of_balances_without_mint_burn (E : list RawLog) (L : dict) :
  (forall e a b v, In e E -> decode e = Returns (a, b, v) ->
                   is_zero a = false /\ is_zero b = false) ->
  calculate_balances E = Returns L ->
  sum_values L = 0.
Proof.
  intros Hh H. rewrite (apply_events_sum E [] L H).
  unfold minted, burned. rewrite !amount_where_false; [reflexivity | |];
    intros e a b v Hin Hd; destruct (Hh e a b v Hin Hd) as [-> ->];
    reflexivity.
Qed.

(** C9, refuted: the complete history of a token whose whole supply of 100
    was minted to one holder gives a ledger whose balances sum to 100. *)
Lemma complete_history_sum_not_zero :
  calculate_balances [Fixtures.transfer_log 0 0xA 100 1]
  = Returns [(Fixtures.alice, 100)] /\
  sum_values [(Fixtures.alice, 100)] <> 0.
Proof. split; [vm_compute; reflexivity | discriminate]. Qed.

(** *** Logs that cannot be decoded *)

Definition decodable (e : RawLog) : bool :=
  match decode e with
  | Returns _ => true
  | Raises _ => false
  end.

Lemma apply_events_raises (E : list RawLog) (e : RawLog) (x : Exception) :
  In e E -> decode e = Raises x ->
  forall d, exists x', apply_events d E = Raises x'.
Proof.
  induction E as [| e0 E IH]; intros Hin Hd d; [contradiction |].
  simpl. unfold apply_event.
  destruct Hin as [-> | Hin].
  - rewrite Hd. simpl. eauto.
  - destruct (decode e0) as [[[a b] v] | x0]; simpl; eauto.
Qed.

(** Decoding raises exactly for the logs with fewer than three topics or
    an empty data field. *)
Lemma decode_raises_iff (log : RawLog) :
  (exists x, decode log = Raises x) <->
  (List.length (topics log) < 3)%nat \/ data log = [].
Proof.
  split.
  - intros [x Hx].
    destruct (Nat.lt_ge_cases (List.length (topics log)) 3) as [Hl | Hl];
      [now left | right].
    destruct (data log) as [| b bs] eqn:Ed; [reflexivity |].
    destruct (DecodeFacts.decode_well_formed log Hl) as (a & c & _ & _ & Hr);
      [rewrite Ed; discriminate |].
    rewrite Hr in Hx. discriminate.
  - intros Hbad.
    destruct (Nat.lt_ge_cases (List.length (topics log)) 3) as [Hl | Hl].
    + exists IndexError. now apply DecodeFacts.decode_short_topics.
    + destruct Hbad as [Hs | He]; [lia |].
      exists ValueError. now apply DecodeFacts.decode_empty_data.
Qed.

(** The exception is [IndexError] for a missing topic, and otherwise
    [ValueError], for the empty data field. *)
Lemma decode_raises_which (log : RawLog) (x : Exception) :
  decode log = Raises x ->
  x = if (List.length (topics log) <? 3)%nat then IndexError else ValueError.
Proof.
  intros Hx.
  destruct (Nat.ltb_spec (List.length (topics log)) 3) as [Hl | Hl].
  - rewrite (DecodeFacts.decode_short_topics log Hl) in Hx. congruence.
  - destruct (proj1 (decode_raises_iff log) (ex_intro _ x Hx)) as [Hs | He];
      [lia |].
    rewrite (DecodeFacts.decode_empty_data log Hl He) in Hx. congruence.
Qed.

(** What the aggregation raises is what the decoding of one of its logs
    raised. *)
Lemma apply_events_raises_origin (E : list RawLog) (x : Exception) :
  forall d,
    apply_events d E = Raises x -> exists e, In e E /\ decode e = Raises x.
Proof.
  induction E as [| e0 E IH]; intros d H; [discriminate |].
  simpl in H. unfold apply_event in H.
  destruct (decode e0) as [[[a b] v] | x0] eqn:Ed; simpl in H.
  - destruct (IH _ H) as (e & Hin & He). exists e. split; [now right | exact He].
  - injection H as <-. exists e0. split; [now left | exact Ed].
Qed.

(** C6, as the code has it: a log with fewer than 3 topics makes the
    decoding raise [IndexError], and one with its 3 topics and an empty data
    field makes it raise [ValueError]; no other log makes the decoding raise
    (the empty data field is the only one that cannot be parsed).
    [calculate_balances] on a list that holds such a log does not skip it:
    it raises one of these two exceptions and returns no ledger. *)
Theorem malformed_log_aborts (E : list RawLog) (e : RawLog) :
  In e E ->
  (List.length (topics e) < 3)%nat \/ data e = [] ->
  decode e
  = Raises (if (List.length (topics e) <? 3)%nat
            then IndexError else ValueError) /\
  (forall log,
      ((List.length (topics log) < 3)%nat ->
       decode log = Raises IndexError) /\
      ((3 <= List.length (topics log))%nat ->
       (decode log = Raises ValueError <-> data log = []) /\
       (data log <> [] ->
        exists a b,
          decode log
          = Returns (a, b, DecodeFacts.be_value 0 (data log))))) /\
  (exists x,
      calculate_balances E = Raises x /\ (x = IndexError \/ x = ValueError)).
Proof.
  intros Hin Hbad.
  destruct (proj2 (decode_raises_iff e) Hbad) as [x Hx].
  pose proof (decode_raises_which e x Hx) as Hw.
  split; [now rewrite <- Hw |]. split.
  - intros log. split; [apply DecodeFacts.decode_short_topics |].
    intros Hl. split.
    + split.
      * intros Hv.
        destruct (proj1 (decode_raises_iff log) (ex_intro _ _ Hv))
          as [Hs | He]; [lia | exact He].
      * now apply DecodeFacts.decode_empty_data.
    + intros Hd.
      destruct (DecodeFacts.decode_well_formed log Hl Hd)
        as (a & b & _ & _ & Hr).
      exists a, b. exact Hr.
  - unfold calculate_balances.
    destruct (apply_events_raises E e x Hin Hx []) as [x' Hx'].
    exists x'. split; [exact Hx' |].
    destruct (apply_events_raises_origin E x' [] Hx') as (e' & _ & He').
    rewrite (decode_raises_which e' x' He').
    destruct (List.length (topics e') <? 3)%nat; [now left | now right].
Qed.

Lemma malformed_log_aborts_witness :
  let E := [Fixtures.short_log 1; Fixtures.transfer_log 0xA 0xB 100 2] in
  let E' := [Fixtures.transfer_log 0xA 0xB 100 2;
             Fixtures.no_data_log 0xA 0xB 3] in
  (decode (Fixtures.short_log 1) = Raises IndexError /\
   exists x,
     calculate_balances E = Raises x /\ (x = IndexError \/ x = ValueError)) /\
  (decode (Fixtures.no_data_log 0xA 0xB 3) = Raises ValueError /\
   exists x,
     calculate_balances E' = Raises x /\ (x = IndexError \/ x = ValueError)).
Proof.
  split.
  - destruct (malformed_log_aborts
                [Fixtures.short_log 1; Fixtures.transfer_log 0xA 0xB 100 2]
                (Fixtures.short_log 1)) as (H1 & _ & H3).
    + left. reflexivity.
    + left. simpl. lia.
    + split; [exact H1 | exact H3].
  - destruct (malformed_log_aborts
                [Fixtures.transfer_log 0xA 0xB 100 2;
                 Fixtures.no_data_log 0xA 0xB 3]
                (Fixtures.no_data_log 0xA 0xB 3)) as (H1 & _ & H3).
    + right. left. reflexivity.
    + right. reflexivity.
    + split; [exact H1 | exact H3].
Defined.

(** C6, refuted: with a one-topic log in front of a well-formed transfer,
    [calculate_balances] raises [IndexError]; it does not return the ledger
    of the remaining event. *)
Lemma malformed_log_not_skipped :
  let E := [Fixtures.short_log 1; Fixtures.transfer_log 0xA 0xB 100 2] in
  calculate_balances E = Raises IndexError /\
  calculate_balances (filter decodable E)
  = Returns [(Fixtures.alice, -100); (Fixtures.bob, 100)] /\
  calculate_balances E <> calculate_balances (filter decodable E).
Proof.
  assert (calculate_balances
            [Fixtures.short_log 1; Fixtures.transfer_log 0xA 0xB 100 2]
          = Raises IndexError) as H1 by (vm_compute; reflexivity).
  assert (calculate_balances
            (filter decodable
               [Fixtures.short_log 1; Fixtures.transfer_log 0xA 0xB 100 2])
          = Returns [(Fixtures.alice, -100); (Fixtures.bob, 100)]) as H2
    by (vm_compute; reflexivity).
  cbv zeta. rewrite H1, H2. repeat split. discriminate.
Qed.

(** The same with an empty data field. *)
Example empty_data_raises :
  calculate_balances [Fixtures.no_data_log 0xA 0xB 1;
                      Fixtures.transfer_log 0xA 0xB 100 2]
  = Raises ValueError.
Proof. vm_compute. reflexivity. Qed.

End LedgerFacts.

(** ** The ranking *)

Module RankingFacts.
Import Py Tracker.

Section StableSort.
Context {A : Type} (key : A -> Z).

(** [a] may stand before [b] in a descending arrangement. *)
Definition desc (a b : A) : Prop := key b <= key a.

(** The elements whose key is [v]. *)
Definition has_key (v : Z) (a : A) : bool := key a =? v.

Lemma insert_desc_perm (x : A) (l : list A) :
  Permutation (insert_desc key x l) (x :: l).
Proof.
  induction l as [| y l IH]; simpl; [reflexivity |].
  destruct (key y <=? key x); [reflexivity |].
  rewrite IH. apply perm_swap.
Qed.

Lemma sorted_reverse_perm (l : list A) :
  Permutation (sorted_reverse key l) l.
Proof.
  induction l as [| x l IH]; simpl; [reflexivity |].
  rewrite insert_desc_perm. now constructor.
Qed.

Lemma insert_desc_sorted (x : A) (l : list A) :
  StronglySorted desc l -> StronglySorted desc (insert_desc key x l).
Proof.
  induction 1 as [| y l Hs IH Hall]; simpl.
  - repeat constructor.
  - destruct (key y <=? key x) eqn:E.
    + apply Z.leb_le in E. constructor; [now constructor |].
      constructor; [exact E |].
      eapply Forall_impl; [| exact Hall].
      unfold desc. intros z Hz. lia.
    + apply Z.leb_gt in E. constructor; [exact IH |].
      rewrite (Forall_forall (desc y)). intros z Hz.
      apply (Permutation_in _ (insert_desc_perm x l)) in Hz.
      destruct Hz as [<- | Hz]; [unfold desc; lia |].
      rewrite Forall_forall in Hall. now apply Hall.
Qed.

Lemma sorted_reverse_sorted (l : list A) :
  StronglySorted desc (sorted_reverse key l).
Proof.
  induction l as [| x l IH]; simpl; [constructor |].
  now apply insert_desc_sorted.
Qed.

(** Insertion puts [x] in front of the elements of its own key. *)
Lemma filter_insert_desc (v : Z) (x : A) (l : list A) :
  filter (has_key v) (insert_desc key x l) = filter (has_key v) (x :: l).
Proof.
  induction l as [| y l IH]; simpl; [reflexivity |].
  destruct (key y <=? key x) eqn:E; [reflexivity |].
  apply Z.leb_gt in E. simpl in *. rewrite IH. unfold has_key.
  destruct (key x =? v) eqn:Ex, (key y =? v) eqn:Ey; try reflexivity.
  apply Z.eqb_eq in Ex, Ey. lia.
Qed.

(** Stability: the elements of each key keep their input order. *)
Lemma sorted_reverse_stable (v : Z) (l : list A) :
  filter (has_key v) (sorted_reverse key l) = filter (has_key v) l.
Proof.
  induction l as [| x l IH]; simpl; [reflexivity |].
  rewrite filter_insert_desc. simpl. now rewrite IH.
Qed.

Lemma filter_has_key_head (x : A) (l : list A) :
  filter (has_key (key x)) (x :: l) = x :: filter (has_key (key x)) l.
Proof. simpl. unfold has_key at 1. now rewrite Z.eqb_refl. Qed.

Lemma sorted_head_max (x y : A) (l : list A) :
  StronglySorted desc (y :: l) -> In x (y :: l) -> key x <= key y.
Proof.
  intros Hs [<- | Hin]; [lia |].
  apply StronglySorted_inv in Hs as [_ Hall].
  rewrite Forall_forall in Hall. now apply Hall.
Qed.

(** A descending arrangement is determined by the order it gives to the
    elements of each key. *)
Lemma stable_desc_unique (l1 : list A) :
  forall l2,
    StronglySorted desc l1 -> StronglySorted desc l2 ->
    (forall v, filter (has_key v) l1 = filter (has_key v) l2) ->
    l1 = l2.
Proof.
  induction l1 as [| x l1 IH]; intros [| y l2] H1 H2 Hf.
  - reflexivity.
  - specialize (Hf (key y)). rewrite filter_has_key_head in Hf. discriminate.
  - specialize (Hf (key x)). rewrite filter_has_key_head in Hf. discriminate.
  - assert (key x = key y) as Hk.
    { apply Z.le_antisymm.
      - apply (sorted_head_max x y l2 H2).
        assert (In x (filter (has_key (key x)) (y :: l2))) as Hin
          by (rewrite <- Hf, filter_has_key_head; now left).
        now apply filter_In in Hin.
      - apply (sorted_head_max y x l1 H1).
        assert (In y (filter (has_key (key y)) (x :: l1))) as Hin
          by (rewrite Hf, filter_has_key_head; now left).
        now apply filter_In in Hin. }
    pose proof (Hf (key x)) as Hh.
    rewrite filter_has_key_head, Hk, filter_has_key_head in Hh.
    injection Hh as Hxy Ht. subst y. f_equal.
    apply StronglySorted_inv in H1 as [H1 _].
    apply StronglySorted_inv in H2 as [H2 _].
    apply IH; [assumption | assumption |].
    intros v. destruct (Z.eq_dec (key x) v) as [<- | Hv]; [exact Ht |].
    assert (has_key v x = false) as Hx
      by (unfold has_key; now apply Z.eqb_neq).
    specialize (Hf v). simpl in Hf. now rewrite Hx in Hf.
Qed.

(** [sorted_reverse] is the only stable descending arrangement. *)
Theorem sorted_reverse_unique (l l' : list A) :
  StronglySorted desc l' ->
  (forall v, filter (has_key v) l' = filter (has_key v) l) ->
  l' = sorted_reverse key l.
Proof.
  intros Hs Hf. apply stable_desc_unique.
  - assumption.
  - apply sorted_reverse_sorted.
  - intros v. now rewrite sorted_reverse_stable.
Qed.

Lemma firstn_sorted (R : A -> A -> Prop) (n : nat) (l : list A) :
  StronglySorted R l -> StronglySorted R (firstn n l).
Proof.
  intros H. revert n.
  induction H as [| x l Hs IH Hall]; intros [| n]; simpl; try constructor.
  - apply IH.
  - rewrite Forall_forall in *. intros y Hy. apply Hall.
    rewrite <- (firstn_skipn n l). apply in_or_app. now left.
Qed.

End StableSort.

(** The whole ranking, before [[:top_n]]. *)
Definition full_ranking (L : dict) : list (string * Z) :=
  sorted_reverse snd (items L).

Lemma sorted_balances_firstn (L : dict) (n : Z) :
  0 <= n -> sorted_balances L n = firstn (Z.to_nat n) (full_ranking L).
Proof.
  intros H. unfold sorted_balances, slice_to, full_ranking.
  apply Z.leb_le in H. now rewrite H.
Qed.

(** C3: for [top_n >= 0] the ranking of [get_top_balances] is sorted by
    balance in descending order and has [min(top_n, |L|)] entries (none for
    [top_n = 0]); it is the head of a descending arrangement of all the
    entries of the ledger, and entries of equal balance stand in it in the
    order in which the ledger holds them (first seen first). *)
Theorem sorted_balances_ranking (L : dict) (n : Z) :
  0 <= n ->
  let r := sorted_balances L n in
  StronglySorted (desc snd) r /\
  List.length r = Nat.min (Z.to_nat n) (List.length (items L)) /\
  (n = 0 -> r = []) /\
  (exists rest,
      Permutation (r ++ rest) (items L) /\
      StronglySorted (desc snd) (r ++ rest) /\
      forall v, filter (has_key snd v) (r ++ rest)
                = filter (has_key snd v) (items L)) /\
  (forall v, exists rest,
        filter (has_key snd v) (items L) = filter (has_key snd v) r ++ rest).
Proof.
  intros Hn r. subst r. rewrite (sorted_balances_firstn L n Hn).
  repeat split.
  - apply firstn_sorted, sorted_reverse_sorted.
  - rewrite length_firstn. unfold full_ranking.
    now rewrite (Permutation_length (sorted_reverse_perm snd (items L))).
  - intros ->. reflexivity.
  - exists (skipn (Z.to_nat n) (full_ranking L)).
    rewrite firstn_skipn. unfold full_ranking.
    split; [apply sorted_reverse_perm |].
    split; [apply sorted_reverse_sorted |].
    intros v. apply sorted_reverse_stable.
  - intros v.
    exists (filter (has_key snd v) (skipn (Z.to_nat n) (full_ranking L))).
    rewrite <- filter_app, firstn_skipn. unfold full_ranking.
    symmetry. apply sorted_reverse_stable.
Qed.

Lemma sorted_balances_ranking_witness :
  let L := [("a", 1); ("b", 3); ("c", 1); ("d", 3); ("e", 2)]%string in
  0 <= 3 /\
  sorted_balances L 3 = [("b", 3); ("d", 3); ("e", 2)]%string /\
  StronglySorted (desc snd) (sorted_balances L 3) /\
  List.length (sorted_balances L 3)
  = Nat.min (Z.to_nat 3) (List.length (items L)).
Proof.
  split; [lia |]. split; [reflexivity |].
  pose proof (sorted_balances_ranking
                [("a", 1); ("b", 3); ("c", 1); ("d", 3); ("e", 2)]%string 3
                ltac:(lia)) as (Hs & Hl & _).
  split; [exact Hs | exact Hl].
Defined.

(** The ranking of the two-transfer history. *)
Example sorted_balances_two_transfers :
  sorted_balances
    [(Fixtures.alice, -100); (Fixtures.bob, 60); (Fixtures.carol, 40)] 2
  = [(Fixtures.bob, 60); (Fixtures.carol, 40)].
Proof. vm_compute. reflexivity. Qed.

End RankingFacts.

(** ** The scans *)

Module TrackerFacts.
Import Py Scheduler Tracker.

(** The remote call that fetches a range. *)
Definition call_of (r : BlockRange) : Call := GetLogs (fst r) (snd r).

(** The logs a range contributes: those fetched, none when the fetch
    raised. *)
Definition fetched (web3 : Web3) (r : BlockRange) : list RawLog :=
  match eth_get_logs web3 (fst r) (snd r) with
  | Returns logs => logs
  | Raises _ => []
  end.

Lemma get_transfer_events_run web3 a b tr :
  get_transfer_events web3 a b tr
  = (eth_get_logs web3 a b, tr ++ [GetLogs a b]).
Proof.
  unfold get_transfer_events, bind, attempt, ret, raise.
  destruct (eth_get_logs web3 a b); reflexivity.
Qed.

Lemma gather_ranges web3 (rs : list BlockRange) :
  forall tr,
    gather_return_exceptions
      (map (fun r => get_transfer_events web3 (fst r) (snd r)) rs) tr
    = (Returns (map (fun r => eth_get_logs web3 (fst r) (snd r)) rs),
       tr ++ map call_of rs).
Proof.
  induction rs as [| r rs IH]; intros tr; simpl.
  - unfold ret. now rewrite app_nil_r.
  - unfold bind at 1. unfold attempt. rewrite get_transfer_events_run.
    unfold bind. rewrite IH. unfold ret.
    now rewrite <- app_assoc.
Qed.

Lemma collect_fetched web3 (rs : list BlockRange) :
  forall all_events,
    collect all_events
            (map (fun r => eth_get_logs web3 (fst r) (snd r)) rs)
    = all_events ++ flat_map (fetched web3) rs.
Proof.
  unfold collect.
  induction rs as [| r rs IH]; intros all_events; simpl.
  - now rewrite app_nil_r.
  - rewrite IH. unfold fetched at 2.
    destruct (eth_get_logs web3 (fst r) (snd r)); simpl;
      [now rewrite app_assoc | reflexivity].
Qed.

(** C8: once the latest block is known, [get_all_transfer_events] returns
    normally whatever the outcome of the range fetches: every range of the
    schedule is requested, a failed fetch contributes nothing, and the
    result is the concatenation, in schedule order, of the logs of the
    ranges whose fetch succeeded. *)
Theorem get_all_transfer_events_partial web3 latest_block tr :
  eth_block_number web3 = Returns latest_block ->
  get_all_transfer_events web3 tr
  = (Returns (flat_map (fetched web3) (chunks latest_block)),
     tr ++ BlockNumber :: map call_of (chunks latest_block)).
Proof.
  intros H. unfold get_all_transfer_events.
  unfold bind at 1. unfold get_last_block. rewrite H.
  rewrite SchedulerFacts.build_tasks_map.
  unfold bind. rewrite gather_ranges. unfold ret.
  rewrite collect_fetched. simpl. rewrite <- app_assoc. reflexivity.
Qed.

Lemma get_all_transfer_events_partial_witness :
  eth_block_number Fixtures.flaky = Returns 120000 /\
  eth_get_logs Fixtures.flaky 70001 120000 = Raises (BackendError 429) /\
  get_all_transfer_events Fixtures.flaky []
  = (Returns [Fixtures.transfer_log 0xA 0xB 100 30000],
     [BlockNumber; GetLogs 70001 120000; GetLogs 20001 70000;
      GetLogs 0 20000]).
Proof.
  split; [reflexivity |]. split; [reflexivity |].
  rewrite (get_all_transfer_events_partial Fixtures.flaky 120000 []);
    reflexivity.
Defined.

(** *** The last-activity scan *)

Lemma scan_window_unfold web3 address s l last tr :
  scan_window web3 address s l last tr =
  if s >? l then
    let end_block := Z.max (s - BLOCK_RANGE + 1) l in
    match eth_get_logs web3 end_block s with
    | Raises _ => (Returns last, tr ++ [GetLogs end_block s])
    | Returns logs =>
        match scan_logs address logs last with
        | (Raises _, last') => (Returns last', tr ++ [GetLogs end_block s])
        | (Returns _, last') =>
            scan_window web3 address (end_block - 1) l last'
                        (tr ++ [GetLogs end_block s])
        end
    end
  else (Returns last, tr).
Proof.
  rewrite scan_window_equation_1.
  destruct (Z_gt_dec s l) as [H | H]; simpl.
  - apply Z.gt_lt, Z.gtb_lt in H. rewrite H.
    unfold bind, attempt. rewrite get_transfer_events_run.
    destruct (eth_get_logs web3 _ s) as [logs | e]; [| reflexivity].
    destruct (scan_logs address logs last) as [[[] | e] last']; reflexivity.
  - destruct (s >? l) eqn:E; [| reflexivity].
    apply Z.gtb_lt in E. lia.
Qed.

(** The scan over a list of ranges, newest first: the value of
    [last_transaction_block] when the scan is left, and the ranges it
    requested.  A range whose fetch raises, or one of whose logs has fewer
    than three topics, is the last one requested. *)
Fixpoint scan_chunks (web3 : Web3) (address : string)
    (rs : list BlockRange) (last : option Z) : option Z * list BlockRange :=
  match rs with
  | [] => (last, [])
  | r :: rs' =>
      match eth_get_logs web3 (fst r) (snd r) with
      | Raises _ => (last, [r])
      | Returns logs =>
          match scan_logs address logs last with
          | (Raises _, last') => (last', [r])
          | (Returns _, last') =>
              let '(found, requested) :=
                scan_chunks web3 address rs' last' in
              (found, r :: requested)
          end
      end
  end.

(** The loop of [get_last_transaction_date] walks the schedule of
    [get_all_transfer_events] in the same order. *)
Lemma scan_window_chunks web3 address l s :
  forall last tr,
    scan_window web3 address s l last tr =
    (Returns (fst (scan_chunks web3 address (build_tasks pair s l []) last)),
     tr ++ map call_of
             (snd (scan_chunks web3 address (build_tasks pair s l []) last))).
Proof.
  pattern s. apply (SchedulerFacts.loop_ind l). clear s.
  intros s IH last tr. rewrite scan_window_unfold.
  destruct (Z_gt_dec s l) as [H | H].
  - rewrite (SchedulerFacts.build_tasks_step pair l s H).
    apply Z.gt_lt, Z.gtb_lt in H. rewrite H. cbv zeta. cbn [scan_chunks fst snd].
    destruct (eth_get_logs web3 _ s) as [logs | e]; [| reflexivity].
    destruct (scan_logs address logs last) as [[[] | e] last'];
      [| reflexivity].
    rewrite IH by (apply Z.gtb_lt in H; lia).
    destruct (scan_chunks web3 address _ last') as [found requested].
    cbn [fst snd map]. now rewrite <- app_assoc.
  - rewrite (SchedulerFacts.build_tasks_done pair l s) by lia.
    destruct (s >? l) eqn:E; [apply Z.gtb_lt in E; lia |].
    simpl. now rewrite app_nil_r.
Qed.

(** What the scan of the window of [latest_block] finds for [address]. *)
Definition found (web3 : Web3) (address : string) (latest_block : Z)
  : option Z :=
  fst (scan_chunks web3 address (chunks latest_block) None).

(** The ranges that scan requests. *)
Definition requested (web3 : Web3) (address : string) (latest_block : Z)
  : list BlockRange :=
  snd (scan_chunks web3 address (chunks latest_block) None).

(** [found] is the value of [last_transaction_block] with which the
    loop of main.py:148-161 is left, and [requested] the fetches it made. *)
Lemma scan_window_found web3 address latest_block tr :
  scan_window web3 address latest_block
              (Z.max (latest_block - 1000000) 0) None tr
  = (Returns (found web3 address latest_block),
     tr ++ map call_of (requested web3 address latest_block)).
Proof. apply scan_window_chunks. Qed.

(** The block lookup that follows the scan, if any. *)
Definition lookup_calls (last : option Z) : list Call :=
  match last with
  | Some block => if block =? 0 then [] else [GetBlock block]
  | None => []
  end.

(** The string returned for a given value of [last_transaction_block]. *)
Definition date_of (web3 : Web3) (last : option Z) : string :=
  match last with
  | Some block =>
      if block =? 0 then "N/A"%string
      else match eth_get_block web3 block with
           | Returns timestamp =>
               match utc_isoformat timestamp with
               | Returns date => date
               | Raises _ => "N/A"%string
               end
           | Raises _ => "N/A"%string
           end
  | None => "N/A"%string
  end.

(** [get_last_transaction_date] in terms of the scan over the schedule. *)
Lemma get_last_transaction_date_run web3 address latest_block tr :
  eth_block_number web3 = Returns latest_block ->
  get_last_transaction_date web3 address tr
  = (Returns (date_of web3 (found web3 address latest_block)),
     tr ++ BlockNumber :: map call_of (requested web3 address latest_block)
        ++ lookup_calls (found web3 address latest_block)).
Proof.
  intros H. unfold get_last_transaction_date.
  unfold bind at 1. unfold get_last_block. rewrite H.
  unfold bind at 1. rewrite scan_window_chunks.
  change (build_tasks pair latest_block (Z.max (latest_block - 1000000) 0) [])
    with (chunks latest_block).
  fold (found web3 address latest_block).
  fold (requested web3 address latest_block).
  rewrite <- app_assoc. cbn [app].
  destruct (found web3 address latest_block) as [block |]; cbn [date_of lookup_calls].
  - destruct (block =? 0).
    + unfold ret. now rewrite app_nil_r.
    + unfold bind, attempt, resolve_date, bind, lift, ret.
      rewrite !app_comm_cons, app_assoc.
      destruct (eth_get_block web3 block) as [timestamp | e]; [| reflexivity].
      destruct (utc_isoformat timestamp); reflexivity.
  - unfold ret. now rewrite app_nil_r.
Qed.

(** A log the scan can read: it has the three topics. *)
Definition readable (log : RawLog) : bool :=
  (3 <=? List.length (topics log))%nat.

(** A range whose fetch succeeds with readable logs. *)
Definition chunk_ok (web3 : Web3) (r : BlockRange) : bool :=
  match eth_get_logs web3 (fst r) (snd r) with
  | Returns logs => forallb readable logs
  | Raises _ => false
  end.

(** [address in (from_address, to_address)] *)
Definition touches (address : string) (log : RawLog) : bool :=
  match topic_address log 1, topic_address log 2 with
  | Returns from_address, Returns to_address =>
      String.eqb address from_address || String.eqb address to_address
  | _, _ => false
  end.

(** The running maximum kept in [last_transaction_block]. *)
Definition newest (last : option Z) (blocks : list Z) : option Z :=
  fold_left (fun last b => Some (Z.max (or0 last) b)) blocks last.

Lemma or0_Some (b : Z) : or0 (Some b) = b.
Proof. simpl. destruct (b =? 0) eqn:E; [| reflexivity].
  apply Z.eqb_eq in E. now subst. Qed.

Lemma scan_logs_readable address (logs : list RawLog) :
  forallb readable logs = true ->
  forall last,
    scan_logs address logs last
    = (Returns tt,
       newest last (map blockNumber (filter (touches address) logs))).
Proof.
  induction logs as [| log logs IH]; intros H last; [reflexivity |].
  simpl in H. apply andb_prop in H as [Hl H].
  apply Nat.leb_le in Hl.
  destruct (DecodeFacts.topic_address_ok log 1 ltac:(lia)) as [a Ha].
  destruct (DecodeFacts.topic_address_ok log 2 ltac:(lia)) as [b Hb].
  cbn [scan_logs filter]. unfold touches. rewrite Ha, Hb.
  destruct (String.eqb address a || String.eqb address b);
    rewrite (IH H); reflexivity.
Qed.

Lemma scan_chunks_ok web3 address (rs : list BlockRange) :
  forallb (chunk_ok web3) rs = true ->
  forall last,
    scan_chunks web3 address rs last
    = (newest last
         (map blockNumber
              (filter (touches address) (flat_map (fetched web3) rs))),
       rs).
Proof.
  induction rs as [| r rs IH]; intros H last; [reflexivity |].
  simpl in H. apply andb_prop in H as [Hr H].
  cbn [scan_chunks flat_map]. unfold chunk_ok in Hr. unfold fetched at 1.
  destruct (eth_get_logs web3 (fst r) (snd r)) as [logs | e];
    [| discriminate].
  rewrite (scan_logs_readable address logs Hr), (IH H).
  rewrite filter_app, map_app. unfold newest. now rewrite fold_left_app.
Qed.





(** With every range fetched, the same query finds block 30,000. *)
Example all_chunks_scanned :
  get_last_transaction_date
    (mkWeb3 (Returns 120000)
            (fun a b => if a =? 70001 then Returns []
                        else eth_get_logs Fixtures.flaky a b)
            (fun number => Returns 1700000000))
    Fixtures.alice []
  = (Returns "2023-11-14T22:13:20+00:00"%string,
     [BlockNumber; GetLogs 70001 120000; GetLogs 20001 70000;
      GetLogs 0 20000; GetBlock 30000]).
Proof. vm_compute. reflexivity. Qed.

(** *** The answer of the query *)

(** C5, as the code has it: when the scan found a block and the lookup of
    that block fails, the query returns ['N/A'] instead of raising; that is
    the very string it returns when the scan found nothing, so the caller
    cannot tell the two outcomes apart. *)
Theorem failed_lookup_same_as_no_activity
    web1 address1 latest1 block e tr1 web2 address2 latest2 tr2 :
  eth_block_number web1 = Returns latest1 ->
  found web1 address1 latest1 = Some block ->
  block <> 0 ->
  eth_get_block web1 block = Raises e ->
  eth_block_number web2 = Returns latest2 ->
  found web2 address2 latest2 = None ->
  fst (get_last_transaction_date web1 address1 tr1) = Returns "N/A"%string /\
  fst (get_last_transaction_date web2 address2 tr2) = Returns "N/A"%string.
Proof.
  intros Hb1 Hf1 Hn He Hb2 Hf2.
  rewrite (get_last_transaction_date_run web1 address1 latest1 tr1 Hb1).
  rewrite (get_last_transaction_date_run web2 address2 latest2 tr2 Hb2).
  rewrite Hf1, Hf2. cbn [fst date_of]. rewrite He.
  apply Z.eqb_neq in Hn. now rewrite Hn.
Qed.

Lemma failed_lookup_same_as_no_activity_witness :
  found (Fixtures.tiny 5 true) Fixtures.alice 10 = Some 5 /\
  eth_get_block (Fixtures.tiny 5 true) 5 = Raises (BackendError 503) /\
  found Fixtures.quiet Fixtures.alice 10 = None /\
  fst (get_last_transaction_date (Fixtures.tiny 5 true) Fixtures.alice [])
  = Returns "N/A"%string /\
  fst (get_last_transaction_date Fixtures.quiet Fixtures.alice [])
  = Returns "N/A"%string.
Proof.
  split; [vm_compute; reflexivity |].
  split; [reflexivity |].
  split; [vm_compute; reflexivity |].
  apply (failed_lookup_same_as_no_activity
           (Fixtures.tiny 5 true) Fixtures.alice 10 5 (BackendError 503) []
           Fixtures.quiet Fixtures.alice 10 []).
  - reflexivity.
  - vm_compute. reflexivity.
  - lia.
  - reflexivity.
  - reflexivity.
  - vm_compute. reflexivity.
Defined.

(** C5, refuted: a query whose block lookup fails after a hit in block 5
    and a query over a window without any transfer return the same value. *)
Lemma failed_lookup_not_distinct :
  found (Fixtures.tiny 5 true) Fixtures.alice 10 = Some 5 /\
  eth_get_block (Fixtures.tiny 5 true) 5 = Raises (BackendError 503) /\
  found Fixtures.quiet Fixtures.alice 10 = None /\
  fst (get_last_transaction_date (Fixtures.tiny 5 true) Fixtures.alice [])
  = fst (get_last_transaction_date Fixtures.quiet Fixtures.alice []).
Proof. repeat split; vm_compute; reflexivity. Qed.

(** With the lookup answered, the hit in block 5 gives a date. *)
Example lookup_answered :
  get_last_transaction_date (Fixtures.tiny 5 false) Fixtures.alice []
  = (Returns "2023-11-14T22:13:20+00:00"%string,
     [BlockNumber; GetLogs 0 10; GetBlock 5]).
Proof. vm_compute. reflexivity. Qed.

(** *** Block 0 *)

(** [last_transaction_block] is [None] or a block number from 0 up. *)
Definition nonneg (last : option Z) : Prop :=
  match last with
  | Some b => 0 <= b
  | None => True
  end.

Lemma or0_nonneg (last : option Z) : nonneg last -> 0 <= or0 last.
Proof.
  destruct last as [b |]; [| simpl; lia].
  rewrite or0_Some. exact (fun H => H).
Qed.

Lemma scan_logs_nonneg address (logs : list RawLog) :
  forall last, nonneg last -> nonneg (snd (scan_logs address logs last)).
Proof.
  induction logs as [| log logs IH]; intros last H; [exact H |].
  cbn [scan_logs].
  destruct (topic_address log 1) as [a |]; [| exact H].
  destruct (topic_address log 2) as [b |]; [| exact H].
  destruct (String.eqb address a || String.eqb address b).
  - apply IH. simpl. pose proof (or0_nonneg last H). lia.
  - now apply IH.
Qed.

Lemma scan_chunks_nonneg web3 address (rs : list BlockRange) :
  forall last,
    nonneg last -> nonneg (fst (scan_chunks web3 address rs last)).
Proof.
  induction rs as [| r rs IH]; intros last H; [exact H |].
  cbn [scan_chunks].
  destruct (eth_get_logs web3 (fst r) (snd r)) as [logs | e]; [| exact H].
  pose proof (scan_logs_nonneg address logs last H) as Hl.
  destruct (scan_logs address logs last) as [[[] | e] last']; [| exact Hl].
  specialize (IH last' Hl).
  destruct (scan_chunks web3 address rs last') as [f q]. exact IH.
Qed.

Lemma found_nonneg web3 address latest_block :
  nonneg (found web3 address latest_block).
Proof. apply scan_chunks_nonneg. exact I. Qed.

(** The largest of a list of block numbers (0 for none). *)
Definition max_block (blocks : list Z) : Z := fold_right Z.max 0 blocks.

Lemma newest_Some (blocks : list Z) :
  forall b, newest (Some b) blocks = Some (fold_right Z.max b blocks).
Proof.
  induction blocks as [| x blocks IH]; intros b; [reflexivity |].
  unfold newest in *. cbn [fold_left fold_right]. rewrite or0_Some, IH.
  f_equal. clear IH. revert b.
  induction blocks as [| y blocks IH]; intros b; simpl; [lia |].
  rewrite IH. lia.
Qed.

(** Without a prior hit, the running maximum is [None] for no block, and
    otherwise the largest block number (or 0 if that is larger). *)
Lemma newest_None (blocks : list Z) :
  newest None blocks =
  match blocks with
  | [] => None
  | _ => Some (max_block blocks)
  end.
Proof.
  destruct blocks as [| x blocks]; [reflexivity |].
  unfold newest. cbn [fold_left]. fold (newest (Some (Z.max (or0 None) x)) blocks).
  rewrite newest_Some. unfold max_block. cbn [fold_right or0]. f_equal.
  induction blocks as [| y blocks IH]; simpl; lia.
Qed.

(** When every range of the window is fetched and read, the scan finds
    the largest block number among the logs that touch the address. *)
Lemma found_all_chunks web3 address latest_block :
  forallb (chunk_ok web3) (chunks latest_block) = true ->
  found web3 address latest_block =
  match filter (touches address)
               (flat_map (fetched web3) (chunks latest_block)) with
  | [] => None
  | logs => Some (max_block (map blockNumber logs))
  end.
Proof.
  intros H. unfold found. rewrite (scan_chunks_ok web3 address _ H).
  cbn [fst]. rewrite newest_None.
  destruct (filter _ _); reflexivity.
Qed.

Lemma found_all_chunks_witness :
  found (Fixtures.tiny 0 false) Fixtures.alice 10 = Some 0.
Proof.
  rewrite (found_all_chunks (Fixtures.tiny 0 false) Fixtures.alice 10);
    vm_compute; reflexivity.
Defined.

(** *** The logs the scan reads *)

(** The logs of a fetched range that the [for] loop reads: all of them,
    or those before the first one without its three topics. *)
Fixpoint readable_prefix (logs : list RawLog) : list RawLog :=
  match logs with
  | [] => []
  | log :: logs' =>
      if readable log then log :: readable_prefix logs' else []
  end.

(** The logs the scan of main.py:148-161 reads, newest range first: those
    the backend answers for the ranges of the schedule, up to the first
    range whose fetch raises (which ends the scan) and, within a range, up
    to the first log without its three topics (which ends it too). *)
Fixpoint examined (web3 : Web3) (rs : list BlockRange) : list RawLog :=
  match rs with
  | [] => []
  | r :: rs' =>
      match eth_get_logs web3 (fst r) (snd r) with
      | Raises _ => []
      | Returns logs =>
          if forallb readable logs then logs ++ examined web3 rs'
          else readable_prefix logs
      end
  end.

(** With every range fetched and read these are all the logs of the
    window. *)
Lemma examined_all_chunks web3 (rs : list BlockRange) :
  forallb (chunk_ok web3) rs = true ->
  examined web3 rs = flat_map (fetched web3) rs.
Proof.
  induction rs as [| r rs IH]; intros H; [reflexivity |].
  simpl in H. apply andb_prop in H as [Hr H].
  cbn [examined flat_map]. unfold chunk_ok in Hr. unfold fetched at 1.
  destruct (eth_get_logs web3 (fst r) (snd r)) as [logs | e];
    [| discriminate].
  now rewrite Hr, (IH H).
Qed.

Lemma scan_logs_unreadable address (logs : list RawLog) :
  forallb readable logs = false ->
  forall last,
    exists e,
      scan_logs address logs last
      = (Raises e,
         newest last
           (map blockNumber
                (filter (touches address) (readable_prefix logs)))).
Proof.
  induction logs as [| log logs IH]; intros H last; [discriminate |].
  cbn [forallb] in H. cbn [readable_prefix].
  destruct (readable log) eqn:Er.
  - cbn [andb] in H. unfold readable in Er. apply Nat.leb_le in Er.
    destruct (DecodeFacts.topic_address_ok log 1 ltac:(lia)) as [a Ha].
    destruct (DecodeFacts.topic_address_ok log 2 ltac:(lia)) as [b Hb].
    cbn [scan_logs filter]. unfold touches at 1. rewrite Ha, Hb.
    destruct (String.eqb address a || String.eqb address b).
    + destruct (IH H (Some (Z.max (or0 last) (blockNumber log))))
        as [e He].
      rewrite He. exists e. reflexivity.
    + destruct (IH H last) as [e He]. rewrite He. exists e. reflexivity.
  - unfold readable in Er. apply Nat.leb_gt in Er.
    cbn [scan_logs filter map].
    destruct (Nat.le_gt_cases (List.length (topics log)) 1) as [H1 | H1].
    + rewrite (DecodeFacts.topic_address_short log 1 H1).
      exists IndexError. reflexivity.
    + destruct (DecodeFacts.topic_address_ok log 1 H1) as [a ->].
      rewrite (DecodeFacts.topic_address_short log 2) by lia.
      exists IndexError. reflexivity.
Qed.

(** What the scan finds is the running maximum over the logs it reads
    that touch the address. *)
Lemma scan_chunks_examined web3 address (rs : list BlockRange) :
  forall last,
    fst (scan_chunks web3 address rs last)
    = newest last
        (map blockNumber (filter (touches address) (examined web3 rs))).
Proof.
  induction rs as [| r rs IH]; intros last; [reflexivity |].
  cbn [scan_chunks examined].
  destruct (eth_get_logs web3 (fst r) (snd r)) as [logs | e];
    [| reflexivity].
  destruct (forallb readable logs) eqn:Hr.
  - rewrite (scan_logs_readable address logs Hr).
    specialize (IH (newest last
                      (map blockNumber (filter (touches address) logs)))).
    destruct (scan_chunks web3 address rs _) as [f q]. cbn [fst] in *.
    rewrite IH, filter_app, map_app. unfold newest.
    now rewrite fold_left_app.
  - destruct (scan_logs_unreadable address logs Hr last) as [e He].
    now rewrite He.
Qed.

Lemma found_examined web3 address latest_block :
  found web3 address latest_block
  = match filter (touches address)
                 (examined web3 (chunks latest_block)) with
    | [] => None
    | hits => Some (max_block (map blockNumber hits))
    end.
Proof.
  unfold found. rewrite scan_chunks_examined, newest_None.
  destruct (filter _ _); reflexivity.
Qed.

(** C10: when the logs the scan reads hold a transfer touching the address
    and the newest such transfer is in block 0, [get_last_transaction_date]
    returns ['N/A'] and asks for no block; that is the value it returns for
    an address that no log touches (the no-activity outcome).  Whatever the
    backend and the address, a block is looked up only when the newest block
    of a log touching the address is above 0, and it is that block. *)
Theorem block_zero_hit_is_no_hit
    web3 address latest_block web3' address' latest_block' :
  eth_block_number web3 = Returns latest_block ->
  filter (touches address) (examined web3 (chunks latest_block)) <> [] ->
  max_block
    (map blockNumber
         (filter (touches address) (examined web3 (chunks latest_block))))
  = 0 ->
  eth_block_number web3' = Returns latest_block' ->
  filter (touches address') (examined web3' (chunks latest_block')) = [] ->
  fst (get_last_transaction_date web3 address []) = Returns "N/A"%string /\
  (forall n,
      ~ In (GetBlock n) (snd (get_last_transaction_date web3 address []))) /\
  fst (get_last_transaction_date web3' address' [])
  = fst (get_last_transaction_date web3 address []) /\
  (forall w a l n,
      eth_block_number w = Returns l ->
      In (GetBlock n) (snd (get_last_transaction_date w a [])) ->
      0 < n /\
      filter (touches a) (examined w (chunks l)) <> [] /\
      n = max_block
            (map blockNumber (filter (touches a) (examined w (chunks l))))).
Proof.
  intros Hb Hhits Hmax Hb' Hnone.
  assert (found web3 address latest_block = Some 0) as Hf.
  { rewrite found_examined.
    destruct (filter (touches address) (examined web3 (chunks latest_block)))
      as [| h hs]; [contradiction | now rewrite Hmax]. }
  assert (found web3' address' latest_block' = None) as Hf'
    by (rewrite found_examined; now rewrite Hnone).
  rewrite (get_last_transaction_date_run web3 address latest_block [] Hb).
  rewrite (get_last_transaction_date_run web3' address' latest_block' [] Hb').
  rewrite Hf, Hf'. cbn [fst snd date_of lookup_calls Z.eqb app].
  split; [reflexivity |]. split.
  { intros n [Hin | Hin]; [discriminate |].
    rewrite app_nil_r in Hin.
    apply in_map_iff in Hin as (r & Hr & _). discriminate. }
  split; [reflexivity |].
  intros w a l n Hw Hin.
  rewrite (get_last_transaction_date_run w a l [] Hw) in Hin.
  cbn [snd app] in Hin. destruct Hin as [Hin | Hin]; [discriminate |].
  apply in_app_or in Hin as [Hin | Hin].
  - apply in_map_iff in Hin as (r & Hr & _). discriminate.
  - pose proof (found_nonneg w a l) as Hnn.
    rewrite found_examined in Hin, Hnn.
    destruct (filter (touches a) (examined w (chunks l))) as [| h hs];
      [contradiction |].
    cbn [lookup_calls] in Hin. cbn [nonneg] in Hnn.
    destruct (max_block (map blockNumber (h :: hs)) =? 0) eqn:E;
      [contradiction |].
    destruct Hin as [Hin | []]. injection Hin as <-.
    apply Z.eqb_neq in E.
    split; [change (0 < max_block (map blockNumber (h :: hs))); lia |].
    split; [discriminate | reflexivity].
Qed.

Lemma block_zero_hit_is_no_hit_witness :
  eth_block_number (Fixtures.tiny 0 false) = Returns 10 /\
  filter (touches Fixtures.alice)
         (examined (Fixtures.tiny 0 false) (chunks 10))
  = [Fixtures.transfer_log 0xA 0xB 100 0] /\
  filter (touches Fixtures.alice) (examined Fixtures.quiet (chunks 10)) = [] /\
  get_last_transaction_date (Fixtures.tiny 0 false) Fixtures.alice []
  = (Returns "N/A"%string, [BlockNumber; GetLogs 0 10]) /\
  fst (get_last_transaction_date (Fixtures.tiny 0 false) Fixtures.alice [])
  = Returns "N/A"%string /\
  fst (get_last_transaction_date Fixtures.quiet Fixtures.alice [])
  = fst (get_last_transaction_date (Fixtures.tiny 0 false) Fixtures.alice []).
Proof.
  split; [reflexivity |]. split; [vm_compute; reflexivity |].
  split; [vm_compute; reflexivity |]. split; [vm_compute; reflexivity |].
  destruct (block_zero_hit_is_no_hit
              (Fixtures.tiny 0 false) Fixtures.alice 10
              Fixtures.quiet Fixtures.alice 10)
    as (H1 & _ & H3 & _).
  - reflexivity.
  - vm_compute. discriminate.
  - vm_compute. reflexivity.
  - reflexivity.
  - vm_compute. reflexivity.
  - split; [exact H1 | exact H3].
Defined.

End TrackerFacts.

(** ** More on the schedule *)

Module ScheduleBounds.
Import Scheduler SchedulerFacts.

(** Consecutive ranges of a tiling are adjacent, newest first. *)
Lemma tiles_adjacent hi lo rs :
  tiles hi lo rs ->
  forall i r1 r2,
    nth_error rs i = Some r1 -> nth_error rs (S i) = Some r2 ->
    snd r2 = fst r1 - 1.
Proof.
  induction 1 as [hi | hi a lo rs Ha Hw Ht IH]; intros i r1 r2 H1 H2.
  - destruct i; discriminate.
  - destruct i as [| i].
    + simpl in H1. injection H1 as <-. simpl in H2.
      inversion Ht; subst; simpl in H2; [discriminate |].
      injection H2 as <-. reflexivity.
    + simpl in H1. change (nth_error rs (S i) = Some r2) in H2.
      now apply (IH i r1 r2).
Qed.

Lemma tiles_head hi lo rs :
  tiles hi lo rs -> forall r, nth_error rs 0 = Some r -> snd r = hi.
Proof.
  destruct 1; simpl; intros r0 Hr; [discriminate | now injection Hr as <-].
Qed.

(** Number of iterations of the loop from [s] down to [l]. *)
Lemma build_tasks_length {T} (task : Z -> Z -> T) l s :
  l - 1 <= s ->
  List.length (build_tasks task s l [])
  = Z.to_nat ((s - l + BLOCK_RANGE - 1) / BLOCK_RANGE).
Proof.
  pattern s. apply (loop_ind l). clear s. intros s IH Hs.
  destruct (Z_gt_dec s l) as [H | H].
  - rewrite (build_tasks_step task l s H). cbn [List.length].
    rewrite IH by (unfold BLOCK_RANGE; lia).
    unfold BLOCK_RANGE in *.
    destruct (Z.max_spec (s - 50000 + 1) l) as [[Hlt ->] | [Hge ->]].
    + replace ((l - 1 - l + 50000 - 1) / 50000) with 0
        by (symmetry; apply Z.div_small; lia).
      replace ((s - l + 50000 - 1) / 50000) with 1; [reflexivity |].
      apply (Z.div_unique _ _ 1 (s - l - 1)); lia.
    + replace (s - l + 50000 - 1)
        with ((s - 50000 + 1 - 1 - l + 50000 - 1) + 1 * 50000) by lia.
      rewrite Z.div_add by lia.
      assert (0 <= (s - 50000 + 1 - 1 - l + 50000 - 1) / 50000)
        by (apply Z.div_pos; lia).
      lia.
  - rewrite (build_tasks_done task l s) by lia.
    unfold BLOCK_RANGE. rewrite Z.div_small by lia. reflexivity.
Qed.

(** Only the last range of the loop can be narrower than [BLOCK_RANGE]. *)
Lemma build_tasks_full_width l s :
  forall i r,
    nth_error (build_tasks pair s l []) i = Some r ->
    width r < BLOCK_RANGE ->
    nth_error (build_tasks pair s l []) (S i) = None.
Proof.
  pattern s. apply (loop_ind l). clear s. intros s IH i r Hr Hw.
  destruct (Z_gt_dec s l) as [H | H].
  - rewrite (build_tasks_step pair l s H) in *.
    destruct i as [| i].
    + simpl in Hr. injection Hr as <-. unfold width in Hw. simpl in Hw.
      cbn [nth_error]. rewrite build_tasks_done; [reflexivity |].
      unfold BLOCK_RANGE in *. lia.
    + simpl in Hr. cbn [nth_error]. now apply (IH H i r).
  - rewrite (build_tasks_done pair l s) in Hr by lia. destruct i; discriminate.
Qed.

(** The schedule of [get_all_transfer_events] for any latest block from 0
    up: the first range ends at the latest block, each next range ends right
    below the start of the one before, no two ranges share a block, every
    range but the last is [BLOCK_RANGE] blocks wide and the last between 1
    and [BLOCK_RANGE], and the blocks requested are those from
    [first_fetched] (the window floor, or the block above it when the window
    length is a multiple of [BLOCK_RANGE]) to the latest block. *)
Theorem schedule_shape latest_block :
  0 <= latest_block ->
  let rs := chunks latest_block in
  (forall r, nth_error rs 0 = Some r -> snd r = latest_block) /\
  (forall i r1 r2,
      nth_error rs i = Some r1 -> nth_error rs (S i) = Some r2 ->
      snd r2 = fst r1 - 1 /\ width r1 = BLOCK_RANGE) /\
  Forall (fun r => 1 <= width r <= BLOCK_RANGE) rs /\
  ForallOrdPairs disjoint rs /\
  (forall b, covered b rs <->
             first_fetched latest_block <= b <= latest_block) /\
  end_block_limit latest_block <= first_fetched latest_block
    <= end_block_limit latest_block + 1.
Proof.
  intros H rs. subst rs.
  pose proof (chunks_tiles latest_block H) as Ht.
  pose proof (tiles_width _ _ _ Ht) as Hw.
  split; [apply (tiles_head _ _ _ Ht) |].
  split.
  { intros i r1 r2 H1 H2.
    split; [apply (tiles_adjacent _ _ _ Ht i r1 r2 H1 H2) |].
    rewrite Forall_forall in Hw.
    pose proof (Hw r1 (nth_error_In _ _ H1)) as Hr1.
    destruct (Z.eq_dec (width r1) BLOCK_RANGE) as [He | He]; [exact He |].
    assert (width r1 < BLOCK_RANGE) as Hlt by lia.
    pose proof (build_tasks_full_width _ _ i r1 H1 Hlt) as Hn.
    assert (Some r2 = None) as Hc by (rewrite <- H2; exact Hn).
    discriminate. }
  split; [exact Hw |].
  split; [apply (tiles_disjoint _ _ _ Ht) |].
  split.
  - intros b. rewrite (tiles_covered _ _ _ Ht b). lia.
  - unfold first_fetched. destruct (_ =? 0); lia.
Qed.

Lemma schedule_shape_witness :
  0 <= 120000 /\
  chunks 120000 = [(70001, 120000); (20001, 70000); (0, 20000)] /\
  first_fetched 120000 = 0 /\
  forall b, covered b (chunks 120000) <-> first_fetched 120000 <= b <= 120000.
Proof.
  split; [lia |]. split; [reflexivity |]. split; [reflexivity |].
  apply (schedule_shape 120000). lia.
Defined.

(** The fan-out is bounded: the schedule has
    [ceil((latest_block - floor) / BLOCK_RANGE)] ranges, which is at most 20,
    exactly 20 once the chain is [WINDOW] blocks long, and none only at
    block 0. *)
Theorem schedule_length latest_block :
  0 <= latest_block ->
  let n := List.length (chunks latest_block) in
  Z.of_nat n
  = (latest_block - end_block_limit latest_block + BLOCK_RANGE - 1)
      / BLOCK_RANGE /\
  (n <= 20)%nat /\
  (WINDOW <= latest_block -> n = 20%nat) /\
  (n = 0%nat <-> latest_block = 0).
Proof.
  intros H n. subst n. unfold chunks.
  assert (0 <= latest_block - end_block_limit latest_block <= 1000000) as Hd
    by (unfold end_block_limit, WINDOW; lia).
  assert (WINDOW <= latest_block ->
          latest_block - end_block_limit latest_block = 1000000) as Hfull
    by (unfold end_block_limit, WINDOW; lia).
  assert (latest_block - end_block_limit latest_block = 0 <-> latest_block = 0)
    as Hzero by (unfold end_block_limit, WINDOW; lia).
  rewrite build_tasks_length by lia.
  unfold BLOCK_RANGE.
  remember (latest_block - end_block_limit latest_block) as d eqn:Ed.
  clear Ed.
  assert (0 <= (d + 50000 - 1) / 50000) as Hq by (apply Z.div_pos; lia).
  assert ((d + 50000 - 1) / 50000 < 21) as Hq20
    by (apply Z.div_lt_upper_bound; lia).
  rewrite Z2Nat.id by exact Hq.
  split; [reflexivity |]. split; [lia |]. split.
  - intros Hw. rewrite (Hfull Hw). reflexivity.
  - rewrite <- Hzero. split.
    + intros Hn.
      assert ((d + 50000 - 1) / 50000 = 0) as Hz by lia.
      apply Z.div_small_iff in Hz; lia.
    + intros ->. reflexivity.
Qed.

Lemma schedule_length_witness :
  0 <= 60000000 /\ List.length (chunks 60000000) = 20%nat /\
  List.length (chunks 120000) = 3%nat.
Proof.
  split; [lia |]. split.
  - apply (schedule_length 60000000); unfold WINDOW; lia.
  - vm_compute. reflexivity.
Defined.

End ScheduleBounds.

(** ** More on decoding and the ledger *)

Module LedgerBalance.
Import Py Tracker DecodeFacts LedgerFacts.

(** The hexadecimal digits of a byte string, without prefix. *)
Definition hexdigits (bs : bytes) : string :=
  fold_right byte_hex EmptyString bs.

Lemma drop_hexdigits (pad rest : bytes) :
  drop (2 * List.length pad) (hexdigits (pad ++ rest)) = hexdigits rest.
Proof.
  induction pad as [| b pad IH]; [reflexivity |].
  change (2 * List.length (b :: pad))%nat
    with (2 * S (List.length pad))%nat.
  replace (2 * S (List.length pad))%nat
    with (S (S (2 * List.length pad))) by lia.
  exact IH.
Qed.

(** The address read from a 32-byte topic is the prefix ['0x'] and the 40
    digits of its last 20 bytes: the first 12 bytes are not looked at, so
    two topics that differ in them only give the same address. *)
Theorem topic_address_low_20_bytes (log : RawLog) (i : nat)
    (pad addr : bytes) :
  nth_error (topics log) i = Some (pad ++ addr) ->
  List.length pad = 12%nat ->
  topic_address log i = Returns (String "0" (String "x" (hexdigits addr))).
Proof.
  intros Ht Hp. unfold topic_address, getitem. rewrite Ht. cbn [obind].
  do 3 f_equal.
  transitivity (drop (2 * List.length pad) (hexdigits (pad ++ addr)));
    [rewrite Hp; reflexivity | apply drop_hexdigits].
Qed.

Lemma topic_address_low_20_bytes_witness :
  topic_address
    (mkLog [[]; [xff; xff; xff; xff; xff; xff; xff; xff; xff; xff; xff; xff]
                  ++ Fixtures.be_bytes 20 0xA] [] 7) 1
  = Returns Fixtures.alice.
Proof.
  rewrite (topic_address_low_20_bytes _ 1
             [xff; xff; xff; xff; xff; xff; xff; xff; xff; xff; xff; xff]
             (Fixtures.be_bytes 20 0xA));
    reflexivity.
Defined.

Lemma be_value_nonneg (bs : bytes) :
  forall acc, 0 <= acc -> 0 <= be_value acc bs.
Proof.
  unfold be_value. induction bs as [| b bs IH]; intros acc H; [exact H |].
  cbn [fold_left]. apply IH.
  pose proof (N2Z.is_nonneg (Byte.to_N b)). lia.
Qed.

(** Decoding returns exactly for the logs with at least three topics and a
    non-empty data field; the amount is then the unsigned big-endian value
    of the whole data field, whatever its length. *)
Theorem decode_returns (log : RawLog) (a b : string) (v : Z) :
  decode log = Returns (a, b, v) <->
  topic_address log 1 = Returns a /\
  topic_address log 2 = Returns b /\
  data log <> [] /\ v = be_value 0 (data log) /\ 0 <= v.
Proof.
  unfold decode.
  destruct (topic_address log 1) as [a' | x]; simpl;
    [| split; [discriminate | intros [H _]; discriminate]].
  destruct (topic_address log 2) as [b' | x]; simpl;
    [| split; [discriminate | intros (_ & H & _); discriminate]].
  rewrite int16_hex.
  destruct (data log) as [| d ds] eqn:Ed; cbn [obind].
  - split; [discriminate | intros (_ & _ & H & _); contradiction].
  - split.
    + intros H. injection H as -> -> <-.
      split; [reflexivity |]. split; [reflexivity |].
      split; [discriminate |]. split; [reflexivity |].
      apply be_value_nonneg, N2Z.is_nonneg.
    + intros (Ha & Hb & _ & -> & _).
      injection Ha as ->. injection Hb as ->. reflexivity.
Qed.

(** *** When the aggregation returns *)

Lemma apply_events_app (E1 E2 : list RawLog) :
  forall d,
    apply_events d (E1 ++ E2)
    = (d1 <~ apply_events d E1 ;; apply_events d1 E2).
Proof.
  induction E1 as [| e E1 IH]; intros d; [reflexivity |].
  simpl. destruct (apply_event d e) as [d' | x]; simpl; [apply IH | reflexivity].
Qed.

Lemma apply_events_decodable (E : list RawLog) :
  forallb decodable E = true ->
  forall d, exists L, apply_events d E = Returns L.
Proof.
  induction E as [| e E IH]; intros H d; simpl; [eauto |].
  simpl in H. apply andb_prop in H as [He H].
  unfold apply_event. unfold decodable in He.
  destruct (decode e) as [[[a b] v] | x]; [| discriminate].
  simpl. apply (IH H).
Qed.

Lemma apply_events_returns_decodable (E : list RawLog) :
  forall d L, apply_events d E = Returns L -> forallb decodable E = true.
Proof.
  induction E as [| e E IH]; intros d L H; [reflexivity |].
  simpl in *. unfold apply_event in H. unfold decodable at 1.
  destruct (decode e) as [[[a b] v] | x]; simpl in H; [| discriminate].
  simpl. apply (IH _ _ H).
Qed.

(** [calculate_balances] returns a ledger exactly when every log of its
    input can be decoded. *)
Theorem calculate_balances_returns_iff (E : list RawLog) :
  (exists L, calculate_balances E = Returns L) <->
  forallb decodable E = true.
Proof.
  unfold calculate_balances. split.
  - intros [L H]. apply (apply_events_returns_decodable E [] L H).
  - intros H. apply (apply_events_decodable E H).
Qed.

(** Otherwise it raises the exception of the first log that cannot be
    decoded, whatever follows that log. *)
Theorem calculate_balances_first_error
    (pre post : list RawLog) (e : RawLog) (x : Exception) :
  forallb decodable pre = true ->
  decode e = Raises x ->
  calculate_balances (pre ++ e :: post) = Raises x.
Proof.
  intros Hpre He. unfold calculate_balances. rewrite apply_events_app.
  destruct (apply_events_decodable pre Hpre []) as [L ->].
  simpl. unfold apply_event. now rewrite He.
Qed.

Lemma calculate_balances_first_error_witness :
  calculate_balances
    ([Fixtures.transfer_log 0xA 0xB 100 1]
       ++ Fixtures.no_data_log 0xA 0xB 2 :: [Fixtures.short_log 3])
  = Raises ValueError.
Proof.
  apply calculate_balances_first_error; vm_compute; reflexivity.
Defined.

(** *** The balance of an address *)

(** Amount received and amount sent by address [k] in [E]. *)
Definition received (k : string) : list RawLog -> Z :=
  amount_where (fun a b => String.eqb b k).

Definition sent (k : string) : list RawLog -> Z :=
  amount_where (fun a b => String.eqb a k).

(** [k] is the sender or the receiver of some log of [E]. *)
Definition involved (k : string) (E : list RawLog) : bool :=
  existsb
    (fun e =>
       match decode e with
       | Returns (a, b, _) => String.eqb a k || String.eqb b k
       | Raises _ => false
       end) E.

Lemma holder_nonzero (a k : string) :
  k <> ZERO_ADDRESS -> holder a k = String.eqb a k.
Proof.
  intros Hk. unfold holder.
  destruct (String.eqb a k) eqn:E; [| apply andb_false_r].
  apply String.eqb_eq in E. subst a.
  apply String.eqb_neq in Hk. now rewrite Hk.
Qed.

Lemma amount_where_cons p (e : RawLog) (E : list RawLog) :
  amount_where p (e :: E) =
  match decode e with
  | Returns (a, b, v) =>
      if p a b then v + amount_where p E else amount_where p E
  | Raises _ => amount_where p E
  end.
Proof. reflexivity. Qed.

Lemma not_involved_amounts (k : string) (E : list RawLog) :
  involved k E = false -> received k E = 0 /\ sent k E = 0.
Proof.
  unfold received, sent.
  induction E as [| e E IH]; intros H; [split; reflexivity |].
  rewrite !amount_where_cons. cbn [involved existsb] in H.
  apply orb_false_elim in H as [He H]. specialize (IH H).
  destruct (decode e) as [[[a b] v] | x]; [| exact IH].
  apply orb_false_elim in He as [-> ->]. exact IH.
Qed.

(** An entry exists from the first log that involves its address, and
    then moves by what the address receives and sends. *)
Lemma dict_get_apply_events (k : string) (E : list RawLog) :
  k <> ZERO_ADDRESS ->
  forall d L,
    apply_events d E = Returns L ->
    dict_get k L =
    if involved k E
    then Some (defaultdict_getitem k d + received k E - sent k E)
    else dict_get k d.
Proof.
  intros Hk.
  induction E as [| e E IH]; intros d L H; simpl in H.
  - now inversion H; subst.
  - unfold apply_event in H. unfold received, sent.
    rewrite !amount_where_cons.
    fold (received k E). fold (sent k E).
    cbn [involved existsb].
    fold (involved k E).
    destruct (decode e) as [[[a b] v] | x]; simpl in H; [| discriminate].
    rewrite (IH _ _ H). clear IH H.
    unfold defaultdict_getitem.
    rewrite !dict_get_transfer, !(holder_nonzero _ k Hk).
    destruct (involved k E) eqn:Ei.
    + destruct (String.eqb a k), (String.eqb b k), (dict_get k d);
        cbn [orb touch]; f_equal; lia.
    + destruct (not_involved_amounts k E Ei) as [-> ->].
      destruct (String.eqb a k), (String.eqb b k), (dict_get k d);
        cbn [orb touch]; try reflexivity; f_equal; lia.
Qed.

(** The ledger holds an entry exactly for the addresses other than the
    zero address that send or receive in [E], and the balance of such an
    address is what it received minus what it sent. *)
Theorem balance_is_received_minus_sent (E : list RawLog) (L : dict)
    (k : string) :
  calculate_balances E = Returns L ->
  k <> ZERO_ADDRESS ->
  dict_get k L =
  if involved k E then Some (received k E - sent k E) else None.
Proof.
  intros H Hk. unfold calculate_balances in H.
  rewrite (dict_get_apply_events k E Hk [] L H).
  destruct (involved k E); reflexivity.
Qed.

Lemma balance_is_received_minus_sent_witness :
  let E := [Fixtures.transfer_log 0xA 0xB 100 10;
            Fixtures.transfer_log 0xB 0xC 40 20] in
  calculate_balances E
  = Returns [(Fixtures.alice, -100); (Fixtures.bob, 60);
             (Fixtures.carol, 40)] /\
  Fixtures.bob <> ZERO_ADDRESS /\
  dict_get Fixtures.bob
           [(Fixtures.alice, -100); (Fixtures.bob, 60); (Fixtures.carol, 40)]
  = (if involved Fixtures.bob E
     then Some (received Fixtures.bob E - sent Fixtures.bob E) else None).
Proof.
  split; [vm_compute; reflexivity |].
  split; [vm_compute; discriminate |].
  apply balance_is_received_minus_sent;
    [vm_compute; reflexivity | vm_compute; discriminate].
Defined.

(** *** Merging partial results *)

Lemma amount_where_app p (E1 E2 : list RawLog) :
  amount_where p (E1 ++ E2) = amount_where p E1 + amount_where p E2.
Proof.
  unfold amount_where. induction E1 as [| e E1 IH]; simpl; [reflexivity |].
  rewrite IH. destruct (decode e) as [[[a b] v] | x]; [| reflexivity].
  destruct (p a b); lia.
Qed.

(** The entry of a key in the sum of two ledgers. *)
Definition add_entries (o1 o2 : option Z) : option Z :=
  match o1, o2 with
  | None, None => None
  | _, _ =>
      Some ((match o1 with Some v => v | None => 0 end)
            + (match o2 with Some v => v | None => 0 end))
  end.

(** The ledger of two event lists put together is the key-wise sum of
    their ledgers: a key of either is a key of it, with the two balances
    added (a missing one counting as 0). *)
Theorem calculate_balances_app (E1 E2 : list RawLog) (L1 L2 : dict) :
  calculate_balances E1 = Returns L1 ->
  calculate_balances E2 = Returns L2 ->
  exists L,
    calculate_balances (E1 ++ E2) = Returns L /\
    forall k, dict_get k L = add_entries (dict_get k L1) (dict_get k L2).
Proof.
  intros H1 H2.
  assert (forallb decodable (E1 ++ E2) = true) as Hd.
  { rewrite forallb_app.
    unfold calculate_balances in H1, H2.
    rewrite (apply_events_returns_decodable E1 [] L1 H1).
    now rewrite (apply_events_returns_decodable E2 [] L2 H2). }
  destruct (apply_events_decodable _ Hd []) as [L HL].
  exists L. split; [exact HL |]. intros k.
  destruct (String.eqb k ZERO_ADDRESS) eqn:Ek.
  - apply String.eqb_eq in Ek. subst k.
    rewrite (apply_events_zero _ [] L eq_refl HL).
    rewrite (apply_events_zero _ [] L1 eq_refl H1).
    now rewrite (apply_events_zero _ [] L2 eq_refl H2).
  - apply String.eqb_neq in Ek.
    rewrite (dict_get_apply_events k _ Ek [] L HL).
    rewrite (dict_get_apply_events k _ Ek [] L1 H1).
    rewrite (dict_get_apply_events k _ Ek [] L2 H2).
    assert (involved k (E1 ++ E2) = involved k E1 || involved k E2) as ->
      by apply existsb_app.
    assert (received k (E1 ++ E2) = received k E1 + received k E2) as ->
      by apply amount_where_app.
    assert (sent k (E1 ++ E2) = sent k E1 + sent k E2) as ->
      by apply amount_where_app.
    change (defaultdict_getitem k []) with 0.
    change (dict_get k []) with (@None Z).
    destruct (involved k E1) eqn:I1, (involved k E2) eqn:I2;
      try (destruct (not_involved_amounts k E1 I1) as [-> ->]);
      try (destruct (not_involved_amounts k E2 I2) as [-> ->]);
      cbn [orb add_entries]; try reflexivity; f_equal; lia.
Qed.

Lemma calculate_balances_app_witness :
  exists L,
    calculate_balances ([Fixtures.transfer_log 0xA 0xB 100 10]
                          ++ [Fixtures.transfer_log 0xB 0xC 40 20])
    = Returns L /\
    forall k,
      dict_get k L
      = add_entries
          (dict_get k [(Fixtures.alice, -100); (Fixtures.bob, 100)])
          (dict_get k [(Fixtures.bob, -40); (Fixtures.carol, 40)]).
Proof.
  apply calculate_balances_app; vm_compute; reflexivity.
Defined.

(** *** A self-transfer *)

(** A transfer of an address to itself changes no balance, but it gives
    the address an entry (of balance 0 if it had none). *)
Theorem self_transfer_keeps_balances (a k : string) (v : Z) (d : dict) :
  a <> ZERO_ADDRESS ->
  dict_get k (transfer a a v d) =
  if String.eqb a k then Some (defaultdict_getitem k d) else dict_get k d.
Proof.
  intros Ha. rewrite dict_get_transfer.
  unfold holder, touch, defaultdict_getitem.
  apply String.eqb_neq in Ha. rewrite Ha. simpl.
  destruct (String.eqb a k); [| reflexivity].
  f_equal. destruct (dict_get k d); lia.
Qed.

Lemma self_transfer_keeps_balances_witness :
  calculate_balances [Fixtures.transfer_log 0xA 0xA 100 10]
  = Returns [(Fixtures.alice, 0)] /\
  dict_get Fixtures.alice (transfer Fixtures.alice Fixtures.alice 100 [])
  = Some 0.
Proof.
  split; [vm_compute; reflexivity |].
  rewrite (self_transfer_keeps_balances Fixtures.alice Fixtures.alice 100 []);
    [reflexivity | vm_compute; discriminate].
Defined.

End LedgerBalance.

(** ** More on the ranking *)

Module RankingEdges.
Import Py Tracker LedgerFacts RankingFacts.

Lemma slice_to_firstn {A} (n : Z) (l : list A) :
  exists m, slice_to n l = firstn m l.
Proof. unfold slice_to. destruct (0 <=? n); eauto. Qed.

(** A negative [top_n] is not refused: the slice [[:top_n]] then drops the
    last [-top_n] entries of the whole ranking, those of lowest balance,
    and keeps the others (none if the ledger has no more than [-top_n]
    entries). *)
Theorem sorted_balances_negative (L : dict) (n : Z) :
  n < 0 ->
  exists dropped,
    full_ranking L = sorted_balances L n ++ dropped /\
    List.length dropped = Nat.min (Z.to_nat (- n)) (List.length L) /\
    List.length (sorted_balances L n)
    = (List.length L - Z.to_nat (- n))%nat.
Proof.
  intros Hn. unfold sorted_balances, slice_to.
  destruct (0 <=? n) eqn:E; [apply Z.leb_le in E; lia |].
  fold (full_ranking L).
  assert (List.length (full_ranking L) = List.length L) as Hl
    by (unfold full_ranking; apply Permutation_length, sorted_reverse_perm).
  rewrite Hl.
  exists (skipn (List.length L - Z.to_nat (- n)) (full_ranking L)).
  split; [now rewrite firstn_skipn |].
  rewrite length_skipn, length_firstn, Hl. lia.
Qed.

Lemma sorted_balances_negative_witness :
  let L := [("a", 1); ("b", 3); ("c", 2)]%string in
  -1 < 0 /\
  sorted_balances L (-1) = [("b", 3); ("c", 2)]%string /\
  exists dropped,
    full_ranking L = sorted_balances L (-1) ++ dropped /\
    List.length dropped = Nat.min (Z.to_nat (- -1)) (List.length L) /\
    List.length (sorted_balances L (-1))
    = (List.length L - Z.to_nat (- -1))%nat.
Proof.
  split; [lia |]. split; [reflexivity |].
  apply (sorted_balances_negative
           [("a", 1); ("b", 3); ("c", 2)]%string (-1)).
  lia.
Defined.

(** With [top_n] at least the size of the ledger nothing is cut: the
    ranking lists every entry of the ledger once. *)
Theorem sorted_balances_whole_ledger (L : dict) (n : Z) :
  Z.of_nat (List.length L) <= n ->
  sorted_balances L n = full_ranking L /\
  Permutation (sorted_balances L n) (items L).
Proof.
  intros Hn.
  assert (sorted_balances L n = full_ranking L) as ->.
  { unfold sorted_balances, slice_to. fold (full_ranking L).
    destruct (0 <=? n) eqn:E; [| apply Z.leb_gt in E; lia].
    apply firstn_all2.
    unfold full_ranking.
    rewrite (Permutation_length (sorted_reverse_perm snd (items L))).
    unfold items. lia. }
  split; [reflexivity | apply sorted_reverse_perm].
Qed.

Lemma sorted_balances_whole_ledger_witness :
  let L := [("a", 1); ("b", 3); ("c", 2)]%string in
  Z.of_nat (List.length L) <= 10 /\
  sorted_balances L 10 = [("b", 3); ("c", 2); ("a", 1)]%string /\
  Permutation (sorted_balances L 10) (items L).
Proof.
  split; [simpl; lia |]. split; [reflexivity |].
  apply (sorted_balances_whole_ledger
           [("a", 1); ("b", 3); ("c", 2)]%string 10).
  simpl. lia.
Defined.

Lemma firstn_In {A} (m : nat) (l : list A) (x : A) :
  In x (firstn m l) -> In x l.
Proof.
  intros H. rewrite <- (firstn_skipn m l). apply in_or_app. now left.
Qed.

Lemma firstn_NoDup {A} (m : nat) (l : list A) :
  NoDup l -> NoDup (firstn m l).
Proof.
  intros H. rewrite <- (firstn_skipn m l) in H.
  now apply NoDup_app_remove_r in H.
Qed.

(** Whatever [top_n], the ranking of a ledger built by
    [calculate_balances] consists of entries of that ledger, lists no
    address twice and never lists the zero address. *)
Theorem ranking_of_ledger (E : list RawLog) (L : dict) (n : Z) :
  calculate_balances E = Returns L ->
  (forall e, In e (sorted_balances L n) -> In e (items L)) /\
  NoDup (map fst (sorted_balances L n)) /\
  ~ In ZERO_ADDRESS (map fst (sorted_balances L n)).
Proof.
  intros H. unfold sorted_balances.
  destruct (slice_to_firstn n (sorted_reverse snd (items L))) as [m ->].
  pose proof (sorted_reverse_perm snd (items L)) as Hp.
  assert (forall e, In e (firstn m (sorted_reverse snd (items L))) ->
                    In e (items L)) as Hin.
  { intros e He. apply (Permutation_in _ Hp). now apply firstn_In in He. }
  split; [exact Hin |]. split.
  - rewrite <- firstn_map. apply firstn_NoDup.
    apply (Permutation_NoDup (Permutation_sym (Permutation_map fst Hp))).
    apply (calculate_balances_NoDup E L H).
  - intros Hz. apply in_map_iff in Hz as ([k v] & Hk & He).
    simpl in Hk. subst k. apply Hin in He.
    assert (In ZERO_ADDRESS (keys L)) as Hkeys
      by (unfold keys; apply in_map_iff; exists (ZERO_ADDRESS, v); auto).
    apply dict_get_keys in Hkeys. apply Hkeys.
    unfold calculate_balances in H.
    apply (apply_events_zero E [] L eq_refl H).
Qed.

Lemma ranking_of_ledger_witness :
  let E := [Fixtures.transfer_log 0 0xA 100 10;
            Fixtures.transfer_log 0xA 0xB 40 20] in
  calculate_balances E
  = Returns [(Fixtures.alice, 60); (Fixtures.bob, 40)] /\
  NoDup (map fst (sorted_balances
                    [(Fixtures.alice, 60); (Fixtures.bob, 40)] 5)).
Proof.
  split; [vm_compute; reflexivity |].
  apply (ranking_of_ledger
           [Fixtures.transfer_log 0 0xA 100 10;
            Fixtures.transfer_log 0xA 0xB 40 20]).
  vm_compute. reflexivity.
Defined.

End RankingEdges.

(** ** More on the two scans *)

Module ScanFacts.
Import Py Scheduler Tracker SchedulerFacts LedgerFacts TrackerFacts.
Import LedgerBalance.

(** All the logs the window gives: those of the ranges whose fetch
    succeeds, newest range first. *)
Definition window_logs (web3 : Web3) (latest_block : Z) : list RawLog :=
  flat_map (fetched web3) (chunks latest_block).

(** The requests of [get_all_transfer_events]. *)
Definition window_calls (latest_block : Z) : list Call :=
  BlockNumber :: map call_of (chunks latest_block).

Lemma get_all_transfer_events_run web3 latest_block tr :
  eth_block_number web3 = Returns latest_block ->
  get_all_transfer_events web3 tr
  = (Returns (window_logs web3 latest_block),
     tr ++ window_calls latest_block).
Proof.
  intros H. unfold get_all_transfer_events.
  unfold bind at 1. unfold get_last_block. rewrite H.
  rewrite build_tasks_map.
  unfold bind. rewrite gather_ranges. unfold ret.
  rewrite collect_fetched. simpl. rewrite <- app_assoc. reflexivity.
Qed.

Lemma get_top_balances_run web3 latest_block top_n tr :
  eth_block_number web3 = Returns latest_block ->
  get_top_balances web3 top_n tr
  = (match calculate_balances (window_logs web3 latest_block) with
     | Returns balances => Returns (sorted_balances balances top_n)
     | Raises e => Raises e
     end,
     tr ++ window_calls latest_block).
Proof.
  intros H. unfold get_top_balances.
  unfold bind at 1. rewrite (get_all_transfer_events_run _ _ _ H).
  unfold bind, lift, ret.
  destruct (calculate_balances (window_logs web3 latest_block));
    reflexivity.
Qed.

Lemma latest_block_failure_aux web3 e top_n tr :
  eth_block_number web3 = Raises e ->
  get_top_balances web3 top_n tr = (Raises e, tr ++ [BlockNumber]) /\
  get_top_balances_with_dates web3 top_n tr
  = (Raises e, tr ++ [BlockNumber]).
Proof.
  intros H.
  assert (get_top_balances web3 top_n tr = (Raises e, tr ++ [BlockNumber]))
    as Htop.
  { unfold get_top_balances, get_all_transfer_events, bind, get_last_block.
    now rewrite H. }
  split; [exact Htop |].
  unfold get_top_balances_with_dates. unfold bind at 1. now rewrite Htop.
Qed.

(** When the latest-block query raises, each of the four queries raises
    that exception and has made no other request. *)
Theorem latest_block_failure web3 e address top_n tr :
  eth_block_number web3 = Raises e ->
  get_all_transfer_events web3 tr = (Raises e, tr ++ [BlockNumber]) /\
  get_top_balances web3 top_n tr = (Raises e, tr ++ [BlockNumber]) /\
  get_last_transaction_date web3 address tr
  = (Raises e, tr ++ [BlockNumber]) /\
  get_top_balances_with_dates web3 top_n tr
  = (Raises e, tr ++ [BlockNumber]).
Proof.
  intros H.
  assert (get_all_transfer_events web3 tr = (Raises e, tr ++ [BlockNumber]))
    as Hall.
  { unfold get_all_transfer_events, bind, get_last_block. now rewrite H. }
  assert (get_top_balances web3 top_n tr = (Raises e, tr ++ [BlockNumber]))
    as Htop.
  { unfold get_top_balances. unfold bind at 1. now rewrite Hall. }
  repeat split; try assumption.
  - unfold get_last_transaction_date, bind, get_last_block. now rewrite H.
  - unfold get_top_balances_with_dates. unfold bind at 1. now rewrite Htop.
Qed.

Lemma latest_block_failure_witness :
  let down := mkWeb3 (Raises (BackendError 503))
                     (fun a b => Returns []) (fun n => Returns 0) in
  eth_block_number down = Raises (BackendError 503) /\
  get_top_balances_with_dates down 10 []
  = (Raises (BackendError 503), [BlockNumber]).
Proof.
  split; [reflexivity |].
  apply (latest_block_failure
           (mkWeb3 (Raises (BackendError 503))
                   (fun a b => Returns []) (fun n => Returns 0))
           (BackendError 503) EmptyString 10 []).
  reflexivity.
Defined.

(** [get_top_balances] is the ranking of the ledger of the logs of the
    ranges that could be fetched: a range whose fetch fails counts as a
    range without transfers. *)
Theorem get_top_balances_of_window web3 latest_block top_n tr L :
  eth_block_number web3 = Returns latest_block ->
  calculate_balances (window_logs web3 latest_block) = Returns L ->
  get_top_balances web3 top_n tr
  = (Returns (sorted_balances L top_n), tr ++ window_calls latest_block).
Proof.
  intros Hb HL. rewrite (get_top_balances_run _ _ _ _ Hb). now rewrite HL.
Qed.

Lemma get_top_balances_of_window_witness :
  get_top_balances Fixtures.flaky 10 []
  = (Returns [(Fixtures.bob, 100); (Fixtures.alice, -100)],
     [BlockNumber; GetLogs 70001 120000; GetLogs 20001 70000;
      GetLogs 0 20000]).
Proof.
  rewrite (get_top_balances_of_window Fixtures.flaky 120000 10 []
             [(Fixtures.alice, -100); (Fixtures.bob, 100)]);
    vm_compute; reflexivity.
Defined.

(** When the fetch of every range fails, [get_top_balances] returns the
    empty ranking, not an error. *)
Theorem get_top_balances_outage web3 latest_block top_n tr :
  eth_block_number web3 = Returns latest_block ->
  (forall r, In r (chunks latest_block) ->
             exists e, eth_get_logs web3 (fst r) (snd r) = Raises e) ->
  get_top_balances web3 top_n tr
  = (Returns [], tr ++ window_calls latest_block).
Proof.
  intros Hb Hfail. rewrite (get_top_balances_run _ _ _ _ Hb).
  assert (window_logs web3 latest_block = []) as ->.
  { unfold window_logs.
    induction (chunks latest_block) as [| r rs IH]; [reflexivity |].
    simpl. unfold fetched at 1.
    destruct (Hfail r (or_introl eq_refl)) as [e ->]. simpl.
    apply IH. intros r' Hr'. apply Hfail. now right. }
  cbn [calculate_balances apply_events].
  unfold sorted_balances, slice_to. cbn [items sorted_reverse fold_right].
  destruct (0 <=? top_n); now rewrite firstn_nil.
Qed.

Lemma get_top_balances_outage_witness :
  let down := mkWeb3 (Returns 120000)
                     (fun a b => Raises (BackendError 503))
                     (fun n => Returns 0) in
  get_top_balances down 10 []
  = (Returns [], [BlockNumber; GetLogs 70001 120000; GetLogs 20001 70000;
                  GetLogs 0 20000]).
Proof.
  apply (get_top_balances_outage
           (mkWeb3 (Returns 120000)
                   (fun a b => Raises (BackendError 503))
                   (fun n => Returns 0)) 120000 10 []).
  - reflexivity.
  - intros r _. exists (BackendError 503). reflexivity.
Defined.

(** One log that cannot be decoded, in any range that was fetched, makes
    [get_top_balances] raise: no ranking is returned. *)
Theorem get_top_balances_undecodable
    web3 latest_block top_n tr r logs log :
  eth_block_number web3 = Returns latest_block ->
  In r (chunks latest_block) ->
  eth_get_logs web3 (fst r) (snd r) = Returns logs ->
  In log logs ->
  decodable log = false ->
  exists x,
    get_top_balances web3 top_n tr
    = (Raises x, tr ++ window_calls latest_block).
Proof.
  intros Hb Hr Hlogs Hlog Hd.
  rewrite (get_top_balances_run _ _ _ _ Hb).
  assert (In log (window_logs web3 latest_block)) as Hin.
  { unfold window_logs. apply in_flat_map. exists r. split; [exact Hr |].
    unfold fetched. now rewrite Hlogs. }
  unfold decodable in Hd.
  destruct (decode log) as [t | x] eqn:Ed; [discriminate |].
  destruct (apply_events_raises _ log x Hin Ed []) as [x' Hx'].
  exists x'. unfold calculate_balances. now rewrite Hx'.
Qed.

Lemma get_top_balances_undecodable_witness :
  let web3 := mkWeb3 (Returns 10)
                     (fun a b => Returns [Fixtures.transfer_log 0xA 0xB 5 3;
                                          Fixtures.short_log 4])
                     (fun n => Returns 0) in
  exists x,
    get_top_balances web3 10 [] = (Raises x, [BlockNumber; GetLogs 0 10]).
Proof.
  apply (get_top_balances_undecodable
           (mkWeb3 (Returns 10)
                   (fun a b => Returns [Fixtures.transfer_log 0xA 0xB 5 3;
                                        Fixtures.short_log 4])
                   (fun n => Returns 0))
           10 10 [] (0, 10)
           [Fixtures.transfer_log 0xA 0xB 5 3; Fixtures.short_log 4]
           (Fixtures.short_log 4)).
  - reflexivity.
  - left. reflexivity.
  - reflexivity.
  - right. left. reflexivity.
  - reflexivity.
Defined.

End ScanFacts.

(** ** More on the last-activity query *)

Module ActivityFacts.
Import Py Scheduler Tracker SchedulerFacts DecodeFacts TrackerFacts.
Import ScheduleBounds ScanFacts.

(** *** The answer *)

Lemma utc_isoformat_length (timestamp : Z) (date : string) :
  utc_isoformat timestamp = Returns date -> String.length date = 25%nat.
Proof.
  unfold utc_isoformat.
  destruct (civil_from_days (timestamp / 86400)) as [[y m] d].
  destruct ((1 <=? y) && (y <=? 9999)); [| discriminate].
  intros H. injection H as <-. reflexivity.
Qed.

(** Once the latest block is known the query returns a string and never
    raises.  The string is ['N/A'] or a date of 25 characters, and it is a
    date exactly when the scan found a block above 0, the lookup of that
    block succeeded and its timestamp lies in the years 1 to 9999. *)
Theorem date_or_not_available web3 address latest_block tr :
  eth_block_number web3 = Returns latest_block ->
  exists answer,
    fst (get_last_transaction_date web3 address tr) = Returns answer /\
    (answer = "N/A"%string \/ String.length answer = 25%nat) /\
    (answer <> "N/A"%string <->
     exists block timestamp,
       found web3 address latest_block = Some block /\ 0 < block /\
       eth_get_block web3 block = Returns timestamp /\
       utc_isoformat timestamp = Returns answer).
Proof.
  intros Hb.
  rewrite (get_last_transaction_date_run web3 address latest_block tr Hb).
  cbn [fst]. eexists. split; [reflexivity |].
  pose proof (found_nonneg web3 address latest_block) as Hnn.
  destruct (found web3 address latest_block) as [block |]; cbn [date_of].
  2:{ split; [now left |]. split; [congruence |].
      intros (b & t & Hf & _). discriminate. }
  destruct (block =? 0) eqn:E0.
  { apply Z.eqb_eq in E0. subst block.
    split; [now left |]. split; [congruence |].
    intros (b & t & Hf & Hpos & _). injection Hf as <-. lia. }
  apply Z.eqb_neq in E0. simpl in Hnn.
  destruct (eth_get_block web3 block) as [timestamp | e] eqn:Eg.
  2:{ split; [now left |]. split; [congruence |].
      intros (b & t & Hf & _ & Hg & _). injection Hf as <-.
      rewrite Eg in Hg. discriminate. }
  destruct (utc_isoformat timestamp) as [date | e] eqn:Ei.
  2:{ split; [now left |]. split; [congruence |].
      intros (b & t & Hf & _ & Hg & Hi). injection Hf as <-.
      rewrite Eg in Hg. injection Hg as <-. rewrite Ei in Hi.
      discriminate. }
  pose proof (utc_isoformat_length timestamp date Ei) as Hlen.
  split; [now right |]. split.
  - intros _. exists block, timestamp. repeat split; auto. lia.
  - intros _ ->. discriminate.
Qed.

Lemma date_or_not_available_witness :
  exists answer,
    fst (get_last_transaction_date (Fixtures.tiny 5 false) Fixtures.alice [])
    = Returns answer /\
    (answer = "N/A"%string \/ String.length answer = 25%nat) /\
    (answer <> "N/A"%string <->
     exists block timestamp,
       found (Fixtures.tiny 5 false) Fixtures.alice 10 = Some block /\
       0 < block /\
       eth_get_block (Fixtures.tiny 5 false) block = Returns timestamp /\
       utc_isoformat timestamp = Returns answer).
Proof.
  apply (date_or_not_available (Fixtures.tiny 5 false) Fixtures.alice 10 []).
  reflexivity.
Defined.

(** *** The requests *)

Lemma scan_chunks_prefix web3 address (rs : list BlockRange) :
  forall last,
    exists rest, rs = snd (scan_chunks web3 address rs last) ++ rest.
Proof.
  induction rs as [| r rs IH]; intros last; [exists []; reflexivity |].
  cbn [scan_chunks].
  destruct (eth_get_logs web3 (fst r) (snd r)) as [logs | e];
    [| exists rs; reflexivity].
  destruct (scan_logs address logs last) as [[[] | e] last'];
    [| exists rs; reflexivity].
  destruct (IH last') as [rest Hrest].
  destruct (scan_chunks web3 address rs last') as [f q].
  exists rest. cbn [snd app] in *. now f_equal.
Qed.

Lemma chunks_length_le (latest_block : Z) :
  (List.length (chunks latest_block) <= 20)%nat.
Proof.
  unfold chunks.
  destruct (Z_le_gt_dec latest_block (end_block_limit latest_block))
    as [H | H].
  - rewrite build_tasks_done by exact H. simpl. lia.
  - rewrite build_tasks_length by lia.
    assert (latest_block - end_block_limit latest_block <= 1000000) as Hd
      by (unfold end_block_limit, WINDOW; lia).
    unfold BLOCK_RANGE.
    assert ((latest_block - end_block_limit latest_block + 50000 - 1)
              / 50000 < 21) by (apply Z.div_lt_upper_bound; lia).
    lia.
Qed.

(** The query asks for the latest block, then for ranges of the schedule
    of [get_all_transfer_events], from the newest one on without leaving
    one out, then for at most one block: 22 requests at most. *)
Theorem date_query_requests web3 address latest_block :
  eth_block_number web3 = Returns latest_block ->
  let calls := snd (get_last_transaction_date web3 address []) in
  (exists rest,
      chunks latest_block = requested web3 address latest_block ++ rest) /\
  calls = BlockNumber
            :: map call_of (requested web3 address latest_block)
            ++ lookup_calls (found web3 address latest_block) /\
  (List.length calls <= 22)%nat.
Proof.
  intros Hb calls. subst calls.
  rewrite (get_last_transaction_date_run web3 address latest_block [] Hb).
  cbn [snd app].
  destruct (scan_chunks_prefix web3 address (chunks latest_block) None)
    as [rest Hrest].
  fold (requested web3 address latest_block) in Hrest.
  split; [eauto |]. split; [reflexivity |].
  pose proof (chunks_length_le latest_block) as Hlen.
  rewrite Hrest, length_app in Hlen.
  cbn [List.length]. rewrite length_app, length_map.
  assert (List.length (lookup_calls (found web3 address latest_block)) <= 1)%nat.
  { destruct (found web3 address latest_block) as [b |]; simpl; [| lia].
    destruct (b =? 0); simpl; lia. }
  lia.
Qed.

Lemma date_query_requests_witness :
  snd (get_last_transaction_date Fixtures.flaky Fixtures.alice [])
  = BlockNumber
      :: map call_of (requested Fixtures.flaky Fixtures.alice 120000)
      ++ lookup_calls (found Fixtures.flaky Fixtures.alice 120000).
Proof.
  apply (date_query_requests Fixtures.flaky Fixtures.alice 120000).
  reflexivity.
Defined.

(** *** What the scan finds *)

Lemma max_block_ge (blocks : list Z) :
  0 <= max_block blocks /\ forall b, In b blocks -> b <= max_block blocks.
Proof.
  unfold max_block.
  induction blocks as [| x blocks [IH0 IH]]; simpl; [split; [lia | tauto] |].
  split; [lia |]. intros b [<- | Hb]; [lia |]. specialize (IH b Hb). lia.
Qed.

Lemma max_block_in (blocks : list Z) :
  max_block blocks = 0 \/ In (max_block blocks) blocks.
Proof.
  unfold max_block.
  induction blocks as [| x blocks IH]; simpl; [now left |].
  destruct (Z.max_spec x (fold_right Z.max 0 blocks)) as [[_ ->] | [_ ->]];
    [destruct IH; auto | auto].
Qed.

(** When every range of the window is fetched and every log has its three
    topics, the query looks up the newest block among the logs whose sender
    or receiver is the address: no such log has a larger block number. *)
Theorem newest_touching_block web3 address latest_block tr :
  eth_block_number web3 = Returns latest_block ->
  forallb (chunk_ok web3) (chunks latest_block) = true ->
  let hits := filter (touches address) (window_logs web3 latest_block) in
  let last := match hits with
              | [] => None
              | _ => Some (max_block (map blockNumber hits))
              end in
  get_last_transaction_date web3 address tr
  = (Returns (date_of web3 last),
     tr ++ window_calls latest_block ++ lookup_calls last) /\
  (forall log, In log hits ->
               blockNumber log <= max_block (map blockNumber hits)) /\
  (max_block (map blockNumber hits) = 0 \/
   exists log, In log hits /\
               blockNumber log = max_block (map blockNumber hits)).
Proof.
  intros Hb Hok hits last.
  rewrite (get_last_transaction_date_run web3 address latest_block tr Hb).
  rewrite (found_all_chunks web3 address latest_block Hok).
  unfold requested. rewrite (scan_chunks_ok web3 address _ Hok).
  fold (window_logs web3 latest_block). fold hits.
  subst last. clearbody hits. cbn [snd].
  split; [destruct hits; reflexivity |]. split.
  - intros log Hlog. apply max_block_ge. now apply in_map.
  - destruct (max_block_in (map blockNumber hits)) as [H0 | Hin];
      [now left | right].
    apply in_map_iff in Hin as (log & Hl & Hin). eauto.
Qed.

Lemma newest_touching_block_witness :
  let web3 := mkWeb3 (Returns 100)
                     (fun a b => Returns [Fixtures.transfer_log 0xA 0xB 100 10;
                                          Fixtures.transfer_log 0xB 0xC 40 20])
                     (fun n => Returns 1700000000) in
  get_last_transaction_date web3 Fixtures.bob []
  = (Returns "2023-11-14T22:13:20+00:00"%string,
     [BlockNumber; GetLogs 0 100; GetBlock 20]).
Proof.
  cbv zeta.
  destruct (newest_touching_block
              (mkWeb3 (Returns 100)
                 (fun a b => Returns [Fixtures.transfer_log 0xA 0xB 100 10;
                                      Fixtures.transfer_log 0xB 0xC 40 20])
                 (fun n => Returns 1700000000))
              Fixtures.bob 100 [] eq_refl) as [H _];
    [vm_compute; reflexivity |].
  rewrite H. vm_compute. reflexivity.
Defined.

(** *** A log without its three topics *)

Lemma topic_address_unreadable (log : RawLog) :
  readable log = false ->
  topic_address log 1 = Raises IndexError \/
  (exists a, topic_address log 1 = Returns a) /\
  topic_address log 2 = Raises IndexError.
Proof.
  unfold readable. intros H. apply Nat.leb_gt in H.
  destruct (Nat.le_gt_cases (List.length (topics log)) 1) as [H1 | H1].
  - left. now apply topic_address_short.
  - right. split; [now apply topic_address_ok |].
    apply topic_address_short. lia.
Qed.

Lemma scan_logs_stop address (good : list RawLog) bad rest :
  forallb readable good = true ->
  readable bad = false ->
  forall last,
    scan_logs address (good ++ bad :: rest) last
    = (Raises IndexError,
       newest last (map blockNumber (filter (touches address) good))).
Proof.
  intros Hgood Hbad.
  induction good as [| log good IH]; intros last.
  - cbn [app scan_logs filter map].
    destruct (topic_address_unreadable bad Hbad) as [-> | [[a ->] ->]];
      reflexivity.
  - simpl in Hgood. apply andb_prop in Hgood as [Hl Hgood].
    apply Nat.leb_le in Hl.
    destruct (topic_address_ok log 1 ltac:(lia)) as [a Ha].
    destruct (topic_address_ok log 2 ltac:(lia)) as [b Hb].
    cbn [app scan_logs filter]. unfold touches at 1. rewrite Ha, Hb.
    destruct (String.eqb address a || String.eqb address b);
      rewrite (IH Hgood); reflexivity.
Qed.

(** A fetched log with fewer than three topics ends the scan as a failed
    fetch does: the hits of the logs before it in that range are kept, the
    logs after it and the older ranges are not looked at. *)
Theorem unreadable_log_ends_scan
    web3 address latest_block pre r post good bad rest tr :
  eth_block_number web3 = Returns latest_block ->
  chunks latest_block = pre ++ r :: post ->
  forallb (chunk_ok web3) pre = true ->
  eth_get_logs web3 (fst r) (snd r) = Returns (good ++ bad :: rest) ->
  forallb readable good = true ->
  readable bad = false ->
  let last :=
    newest None
      (map blockNumber
           (filter (touches address) (flat_map (fetched web3) pre ++ good)))
  in
  get_last_transaction_date web3 address tr
  = (Returns (date_of web3 last),
     tr ++ BlockNumber :: map call_of (pre ++ [r]) ++ lookup_calls last).
Proof.
  intros Hb Hc Hpre Hr Hgood Hbad.
  assert (forall l0,
             scan_chunks web3 address (pre ++ r :: post) l0
             = (newest l0
                  (map blockNumber
                       (filter (touches address)
                               (flat_map (fetched web3) pre ++ good))),
                pre ++ [r])) as Hscan.
  { clear Hc. induction pre as [| p pre IH]; intros l0.
    - cbn [app scan_chunks flat_map]. rewrite Hr.
      now rewrite (scan_logs_stop address good bad rest Hgood Hbad).
    - simpl in Hpre. apply andb_prop in Hpre as [Hp Hpre].
      cbn [app scan_chunks flat_map]. unfold chunk_ok in Hp.
      unfold fetched at 1.
      destruct (eth_get_logs web3 (fst p) (snd p)) as [logs | e'];
        [| discriminate].
      rewrite (scan_logs_readable address logs Hp), (IH Hpre).
      rewrite <- app_assoc.
      rewrite (filter_app (touches address) logs).
      rewrite (map_app blockNumber (filter (touches address) logs)).
      unfold newest. rewrite fold_left_app. reflexivity. }
  intros last.
  rewrite (get_last_transaction_date_run web3 address latest_block tr Hb).
  unfold found, requested. rewrite Hc, Hscan. reflexivity.
Qed.

Lemma unreadable_log_ends_scan_witness :
  let web3 := mkWeb3 (Returns 120000)
                (fun a b => Returns [Fixtures.transfer_log 0xA 0xB 1 (b - 5);
                                     Fixtures.short_log (b - 6);
                                     Fixtures.transfer_log 0xA 0xB 1 (b - 7)])
                (fun n => Returns 1700000000) in
  get_last_transaction_date web3 Fixtures.alice []
  = (Returns "2023-11-14T22:13:20+00:00"%string,
     [BlockNumber; GetLogs 70001 120000; GetBlock 119995]).
Proof.
  cbv zeta.
  rewrite (unreadable_log_ends_scan
             (mkWeb3 (Returns 120000)
                (fun a b => Returns [Fixtures.transfer_log 0xA 0xB 1 (b - 5);
                                     Fixtures.short_log (b - 6);
                                     Fixtures.transfer_log 0xA 0xB 1 (b - 7)])
                (fun n => Returns 1700000000))
             Fixtures.alice 120000 [] (70001, 120000)
             [(20001, 70000); (0, 20000)]
             [Fixtures.transfer_log 0xA 0xB 1 119995]
             (Fixtures.short_log 119994)
             [Fixtures.transfer_log 0xA 0xB 1 119993] []);
    vm_compute; reflexivity.
Defined.

(** *** The spelling of the address *)

(** A digit or a lowercase letter from [a] to [f]. *)
Definition lower_hex (c : ascii) : bool :=
  let code := N_of_ascii c in
  (((48 <=? code) && (code <=? 57)) || ((97 <=? code) && (code <=? 102)))%N.

Fixpoint all_lower_hex (s : string) : bool :=
  match s with
  | EmptyString => true
  | String c s' => lower_hex c && all_lower_hex s'
  end.

(** ['0x'] followed by lowercase hexadecimal digits only. *)
Definition canonical (address : string) : bool :=
  match address with
  | String c0 (String c1 digits) =>
      Ascii.eqb c0 "0" && Ascii.eqb c1 "x" && all_lower_hex digits
  | _ => false
  end.

Lemma all_lower_hex_hexdigits (bs : bytes) :
  all_lower_hex (LedgerBalance.hexdigits bs) = true.
Proof.
  induction bs as [| b bs IH]; [reflexivity |].
  change (LedgerBalance.hexdigits (b :: bs))
    with (byte_hex b (LedgerBalance.hexdigits bs)).
  unfold byte_hex. cbn [all_lower_hex]. rewrite IH.
  destruct b; reflexivity.
Qed.

Lemma all_lower_hex_drop (n : nat) :
  forall s, all_lower_hex s = true -> all_lower_hex (drop n s) = true.
Proof.
  induction n as [| n IH]; intros s H; [exact H |].
  destruct s as [| c s]; [reflexivity |].
  simpl in H. apply andb_prop in H as [_ H]. simpl. now apply IH.
Qed.

(** The addresses read from the logs are all spelled that way. *)
Lemma topic_address_canonical (log : RawLog) (i : nat) (a : string) :
  topic_address log i = Returns a -> canonical a = true.
Proof.
  unfold topic_address, getitem.
  destruct (nth_error (topics log) i) as [t |]; [| discriminate].
  cbn [obind]. intros H. injection H as <-.
  change (all_lower_hex (drop 24 (LedgerBalance.hexdigits t)) = true).
  apply all_lower_hex_drop, all_lower_hex_hexdigits.
Qed.

Lemma touches_canonical (address : string) (log : RawLog) :
  canonical address = false -> touches address log = false.
Proof.
  intros Hc. unfold touches.
  destruct (topic_address log 1) as [a |] eqn:Ea; [| reflexivity].
  destruct (topic_address log 2) as [b |] eqn:Eb; [| reflexivity].
  apply topic_address_canonical in Ea, Eb.
  destruct (String.eqb address a) eqn:E1;
    [apply String.eqb_eq in E1; congruence |].
  destruct (String.eqb address b) eqn:E2;
    [apply String.eqb_eq in E2; congruence | reflexivity].
Qed.

Lemma scan_logs_no_match (address : string) :
  (forall log, touches address log = false) ->
  forall logs last, snd (scan_logs address logs last) = last.
Proof.
  intros Hno. induction logs as [| log logs IH]; intros last; [reflexivity |].
  cbn [scan_logs]. specialize (Hno log). unfold touches in Hno.
  destruct (topic_address log 1) as [a |]; [| reflexivity].
  destruct (topic_address log 2) as [b |]; [| reflexivity].
  rewrite Hno. apply IH.
Qed.

Lemma scan_chunks_no_match web3 (address : string) :
  (forall log, touches address log = false) ->
  forall rs last, fst (scan_chunks web3 address rs last) = last.
Proof.
  intros Hno. induction rs as [| r rs IH]; intros last; [reflexivity |].
  cbn [scan_chunks].
  destruct (eth_get_logs web3 (fst r) (snd r)) as [logs | e];
    [| reflexivity].
  pose proof (scan_logs_no_match address Hno logs last) as Hl.
  destruct (scan_logs address logs last) as [[[] | e] last'];
    simpl in Hl; subst last'; [| reflexivity].
  specialize (IH last).
  destruct (scan_chunks web3 address rs last) as [f q]. exact IH.
Qed.

(** The address is compared letter by letter with the lowercase addresses
    read from the logs: for an address spelled otherwise (with capital
    letters, as in a checksummed address, or without ['0x']) no log ever
    matches, and the query answers ['N/A'] without looking up any block. *)
Theorem uncanonical_address_never_matches web3 address latest_block tr :
  eth_block_number web3 = Returns latest_block ->
  canonical address = false ->
  found web3 address latest_block = None /\
  get_last_transaction_date web3 address tr
  = (Returns "N/A"%string,
     tr ++ BlockNumber :: map call_of (requested web3 address latest_block)).
Proof.
  intros Hb Hc.
  assert (found web3 address latest_block = None) as Hf.
  { unfold found. apply scan_chunks_no_match.
    intros log. now apply touches_canonical. }
  split; [exact Hf |].
  rewrite (get_last_transaction_date_run web3 address latest_block tr Hb).
  rewrite Hf. cbn [date_of lookup_calls]. now rewrite app_nil_r.
Qed.

Lemma uncanonical_address_never_matches_witness :
  canonical "0x000000000000000000000000000000000000000A" = false /\
  canonical Fixtures.alice = true /\
  get_last_transaction_date
    (Fixtures.tiny 5 false) "0x000000000000000000000000000000000000000A" []
  = (Returns "N/A"%string, [BlockNumber; GetLogs 0 10]).
Proof.
  split; [reflexivity |]. split; [vm_compute; reflexivity |].
  destruct (uncanonical_address_never_matches
              (Fixtures.tiny 5 false)
              "0x000000000000000000000000000000000000000A" 10 []
              eq_refl eq_refl) as [_ H].
  rewrite H. vm_compute. reflexivity.
Defined.

End ActivityFacts.

(** ** The ranking with dates and the ranking endpoint *)

Module DatesFacts.
Import Py Scheduler Tracker DecodeFacts LedgerFacts RankingFacts TrackerFacts.
Import LedgerBalance RankingEdges ScanFacts.








(** *** Every ranked address has a hit *)







(** *** The endpoint *)

Lemma fst_guarded {A} (m : M A) (tr : list Call) :
  fst (Server.guarded m tr) =
  match fst (m tr) with
  | Returns a => Server.Body a
  | Raises e => Server.HTTPException 500 e
  end.
Proof. unfold Server.guarded. now destruct (m tr) as [[a | e] tr']. Qed.

(** The endpoint [/get_top_balances] answers with a body exactly when
    the latest-block query succeeds and every log of the ranges that could
    be fetched can be decoded, and the body is then the ranking of the
    ledger of those logs; a failed range fetch never makes it fail.
    Otherwise it answers with status 500 and the exception that
    [get_top_balances] raised. *)
Theorem get_top_balances_endpoint_status web3 top_n tr :
  ((exists body, fst (Server.get_top_balances web3 top_n tr)
                 = Server.Body body) <->
   exists latest_block,
     eth_block_number web3 = Returns latest_block /\
     forallb decodable (window_logs web3 latest_block) = true) /\
  (forall latest_block L,
      eth_block_number web3 = Returns latest_block ->
      calculate_balances (window_logs web3 latest_block) = Returns L ->
      fst (Server.get_top_balances web3 top_n tr)
      = Server.Body (sorted_balances L top_n)) /\
  (forall code detail,
      fst (Server.get_top_balances web3 top_n tr)
      = Server.HTTPException code detail ->
      code = 500 /\
      fst (Tracker.get_top_balances web3 top_n tr) = Raises detail).
Proof.
  unfold Server.get_top_balances. rewrite !fst_guarded.
  destruct (eth_block_number web3) as [latest_block | e] eqn:Hb.
  - rewrite (get_top_balances_run web3 latest_block top_n tr Hb).
    cbn [fst]. unfold calculate_balances.
    destruct (apply_events [] (window_logs web3 latest_block))
      as [L | x] eqn:Ea.
    + split; [split |].
      * intros _. exists latest_block. split; [reflexivity |].
        apply (apply_events_returns_decodable _ _ _ Ea).
      * intros _. eexists. reflexivity.
      * split.
        -- intros lb L' Hl HL'. injection Hl as <-.
           rewrite Ea in HL'. now injection HL' as <-.
        -- intros code detail Hc. discriminate.
    + split; [split |].
      * intros [b Hbody]. discriminate.
      * intros (lb & Hl & Hd). injection Hl as <-.
        destruct (apply_events_decodable _ Hd []) as [L HL]. congruence.
      * split.
        -- intros lb L' Hl HL'. injection Hl as <-.
           rewrite Ea in HL'. discriminate.
        -- intros code detail Hc. now injection Hc as <- <-.
  - destruct (latest_block_failure_aux web3 e top_n tr Hb) as [H1 _].
    rewrite H1. cbn [fst]. split; [split |].
    + intros [b Hbody]. discriminate.
    + intros (lb & Hl & _). discriminate.
    + split.
      * intros lb L' Hl. discriminate.
      * intros code detail Hc. now injection Hc as <- <-.
Qed.

End DatesFacts.

(** ** The ranking and the order of the events *)

Module RankingOrder.
Import Py Tracker LedgerFacts RankingFacts.

Lemma dict_get_In (d : dict) (k : string) (v : Z) :
  NoDup (keys d) -> (In (k, v) d <-> dict_get k d = Some v).
Proof.
  unfold keys. induction d as [| [k0 v0] d IH]; intros Hnd; simpl.
  - split; [tauto | discriminate].
  - inversion Hnd as [| ? ? Hnotin Hnd']; subst.
    destruct (String.eqb k0 k) eqn:E.
    + apply String.eqb_eq in E. subst k0. split.
      * intros [H | H]; [now injection H as -> |].
        exfalso. apply Hnotin. apply in_map_iff. exists (k, v). auto.
      * intros H. injection H as ->. now left.
    + apply String.eqb_neq in E. rewrite <- (IH Hnd'). split.
      * intros [H | H]; [injection H as -> _; contradiction | exact H].
      * intros H. now right.
Qed.

(** Two ledgers with the same entries hold them in some order each. *)
Lemma dict_eq_Permutation (d d' : dict) :
  NoDup (keys d) -> NoDup (keys d') -> dict_eq d d' -> Permutation d d'.
Proof.
  intros Hd Hd' Heq.
  apply NoDup_Permutation.
  - now apply (NoDup_map_inv fst).
  - now apply (NoDup_map_inv fst).
  - intros [k v]. rewrite (dict_get_In d k v Hd), (dict_get_In d' k v Hd').
    now rewrite (Heq k).
Qed.

Section NoTies.
Context {A : Type} (key : A -> Z).

Lemma NoDup_map_filter (f : A -> bool) (l : list A) :
  NoDup (map key l) -> NoDup (map key (filter f l)).
Proof.
  induction l as [| x l IH]; intros H; [constructor |].
  simpl in H. inversion H as [| ? ? Hnotin Hnd]; subst.
  simpl. destruct (f x); [| now apply IH].
  simpl. constructor; [| now apply IH].
  intros Hin. apply Hnotin.
  apply in_map_iff in Hin as (y & Hy & Hin).
  apply filter_In in Hin as [Hin _].
  apply in_map_iff. eauto.
Qed.

Lemma one_per_key (v : Z) (l : list A) :
  NoDup (map key l) -> (List.length (filter (has_key key v) l) <= 1)%nat.
Proof.
  intros H. apply (NoDup_map_filter (has_key key v)) in H.
  assert (forall x, In x (filter (has_key key v) l) -> key x = v) as Hk.
  { intros x Hx. apply filter_In in Hx as [_ Hx].
    unfold has_key in Hx. now apply Z.eqb_eq in Hx. }
  destruct (filter (has_key key v) l) as [| a [| b rest]]; simpl; try lia.
  exfalso. simpl in H. inversion H as [| ? ? Hnotin _]; subst.
  apply Hnotin. left.
  rewrite (Hk a (or_introl eq_refl)).
  apply (Hk b). right. now left.
Qed.

Lemma short_lists_equal (l1 l2 : list A) :
  (List.length l1 <= 1)%nat -> (List.length l2 <= 1)%nat ->
  (forall x, In x l1 <-> In x l2) -> l1 = l2.
Proof.
  destruct l1 as [| a [| ? ?]], l2 as [| b [| ? ?]]; simpl;
    intros H1 H2 Hin; try lia.
  - reflexivity.
  - exfalso. apply (Hin b). now left.
  - exfalso. apply (Hin a). now left.
  - destruct (proj1 (Hin a) (or_introl eq_refl)) as [-> | []]. reflexivity.
Qed.

(** Without two elements of the same key, the sorted arrangement depends
    on the elements only, not on their input order. *)
Lemma sorted_reverse_no_ties (l l' : list A) :
  Permutation l l' -> NoDup (map key l) ->
  sorted_reverse key l = sorted_reverse key l'.
Proof.
  intros Hp Hnd.
  apply stable_desc_unique with (key := key);
    try apply sorted_reverse_sorted.
  intros v. rewrite !sorted_reverse_stable.
  apply short_lists_equal.
  - now apply one_per_key.
  - apply one_per_key.
    apply (Permutation_NoDup (Permutation_map key Hp) Hnd).
  - intros x. rewrite !filter_In. split; intros [Hin Hk]; split; auto.
    + now apply (Permutation_in _ Hp).
    + now apply (Permutation_in _ (Permutation_sym Hp)).
Qed.

End NoTies.

(** When no two addresses have the same balance, the ranking does not
    depend on the order in which the events are aggregated: any permutation
    of the events gives the same ranking, for every [top_n]. *)
Theorem ranking_independent_of_event_order
    (E E' : list RawLog) (L L' : dict) (n : Z) :
  Permutation E E' ->
  calculate_balances E = Returns L ->
  calculate_balances E' = Returns L' ->
  NoDup (values L) ->
  sorted_balances L n = sorted_balances L' n.
Proof.
  intros Hp HL HL' Hties.
  assert (dict_eq L L') as Heq.
  { pose proof (apply_events_permutation E E' Hp [] []
                  (fun k => eq_refl)) as Hs.
    unfold calculate_balances in HL, HL'. rewrite HL, HL' in Hs.
    exact (proj2 Hs). }
  pose proof (dict_eq_Permutation L L'
                (calculate_balances_NoDup E L HL)
                (calculate_balances_NoDup E' L' HL') Heq) as HpL.
  unfold sorted_balances, items.
  now rewrite (sorted_reverse_no_ties snd L L' HpL Hties).
Qed.

Lemma ranking_independent_of_event_order_witness :
  let E := [Fixtures.transfer_log 0xA 0xB 100 10;
            Fixtures.transfer_log 0xB 0xC 40 20] in
  let E' := [Fixtures.transfer_log 0xB 0xC 40 20;
             Fixtures.transfer_log 0xA 0xB 100 10] in
  calculate_balances E
  = Returns [(Fixtures.alice, -100); (Fixtures.bob, 60);
             (Fixtures.carol, 40)] /\
  calculate_balances E'
  = Returns [(Fixtures.bob, 60); (Fixtures.carol, 40);
             (Fixtures.alice, -100)] /\
  sorted_balances [(Fixtures.alice, -100); (Fixtures.bob, 60);
                   (Fixtures.carol, 40)] 2
  = sorted_balances [(Fixtures.bob, 60); (Fixtures.carol, 40);
                     (Fixtures.alice, -100)] 2.
Proof.
  split; [vm_compute; reflexivity |]. split; [vm_compute; reflexivity |].
  apply (ranking_independent_of_event_order
           [Fixtures.transfer_log 0xA 0xB 100 10;
            Fixtures.transfer_log 0xB 0xC 40 20]
           [Fixtures.transfer_log 0xB 0xC 40 20;
            Fixtures.transfer_log 0xA 0xB 100 10]).
  - apply perm_swap.
  - vm_compute. reflexivity.
  - vm_compute. reflexivity.
  - unfold values. simpl. repeat constructor; simpl; intuition lia.
Defined.

End RankingOrder.

(** ** Values computed by the model *)

Module Examples.
Import Py Scheduler Tracker.

Example chunks_120000 :
  chunks 120000 = [(70001, 120000); (20001, 70000); (0, 20000)].
Proof. reflexivity. Qed.

Example chunks_60000000_length :
  List.length (chunks 60000000) = 20%nat.
Proof. vm_compute. reflexivity. Qed.

Example isoformat_2023 :
  utc_isoformat 1700000000 = Returns "2023-11-14T22:13:20+00:00"%string.
Proof. reflexivity. Qed.

Example isoformat_leap_day :
  utc_isoformat 951782400 = Returns "2000-02-29T00:00:00+00:00"%string.
Proof. reflexivity. Qed.

Example isoformat_epoch :
  utc_isoformat 0 = Returns "1970-01-01T00:00:00+00:00"%string.
Proof. reflexivity. Qed.

Example isoformat_before_epoch :
  utc_isoformat (-1) = Returns "1969-12-31T23:59:59+00:00"%string.
Proof. reflexivity. Qed.

Example isoformat_first_second :
  utc_isoformat (-62135596800) = Returns "0001-01-01T00:00:00+00:00"%string.
Proof. reflexivity. Qed.

Example isoformat_last_second :
  utc_isoformat 253402300799 = Returns "9999-12-31T23:59:59+00:00"%string.
Proof. reflexivity. Qed.

Example isoformat_year_10000 :
  utc_isoformat 253402300800 = Raises ValueError.
Proof. reflexivity. Qed.

Example hex_two_bytes : hex [xab; x01] = "0xab01"%string.
Proof. reflexivity. Qed.

Example int16_lowercase : int16 "0xab01" = Returns 43777.
Proof. reflexivity. Qed.

Example int16_uppercase : int16 "0XAB01" = Returns 43777.
Proof. reflexivity. Qed.

Example int16_prefix_only : int16 "0x" = Raises ValueError.
Proof. reflexivity. Qed.

Example int16_not_a_digit : int16 "0xg1" = Raises ValueError.
Proof. reflexivity. Qed.

Example topic_address_word :
  topic_address (Fixtures.transfer_log 0xA 0xB 100 10) 1
  = Returns "0x000000000000000000000000000000000000000a"%string.
Proof. vm_compute. reflexivity. Qed.

Example zero_address_word :
  Fixtures.address_of 0 = ZERO_ADDRESS.
Proof. vm_compute. reflexivity. Qed.

Example sorted_reverse_ties :
  sorted_reverse snd [("a", 1); ("b", 3); ("c", 1); ("d", 3)]%string
  = [("b", 3); ("d", 3); ("a", 1); ("c", 1)]%string.
Proof. reflexivity. Qed.

Example slice_to_negative : slice_to (-1) [1; 2; 3] = [1; 2].
Proof. reflexivity. Qed.

(** The two-transfer history on a chain at block 100: the last activity of
    bob is in block 20. *)
Example last_activity_of_bob :
  TrackerFacts.found
    (mkWeb3 (Returns 100)
            (fun fromBlock toBlock =>
               Returns [Fixtures.transfer_log 0xA 0xB 100 10;
                        Fixtures.transfer_log 0xB 0xC 40 20])
            (fun number => Returns 1700000000))
    Fixtures.bob 100
  = Some 20.
Proof. vm_compute. reflexivity. Qed.

End Examples.
